(** * Gemini Chat Exporter: a shallow embedding of the exporter and its properties

    The development follows the layout of the extension:
    - [JsString]: JavaScript strings as sequences of UTF-16 code units, with
      the string primitives the sources call ([trim], [substring], [indexOf],
      [split], [join], [replace]);
    - [Csv]: the two CSV field escapers ([escapeCSV] of lib/export-csv.js and
      the inline [esc] of content.js) and the table writer;
    - [Filename]: [sanitizeFilename];
    - [Dedup]: [deduplicateMessages];
    - [Converger]: the scroll-to-top loop of [scrollToTopAndLoadAll];
    - [Dom], [Render], [Assemble]: the document tree, [processNode] and
      [extractCurrentMessages];
    - [Markdown]: the two markdown writers;
    - [Coordinator]: [exportChat], the background [handleExport] and the popup
      flow;
    - [Title], [ReportPanel]: [getChatTitle], [extractDeepResearchReport] and
      [getReportTitle];
    - [Png]: the checksum, the chunks and the file of generate-icons.js;
    - [Measures], [Requests], [Walk]: what the further properties are stated
      with. *)

From Stdlib Require Import NArith ZArith Ascii String Decimal DecimalString DecimalN DecimalPos Lia.
From Stdlib.Strings Require Byte.
From stdpp Require Import base tactics list gmap.

Set Warnings "-register-all".


(* ===================================================================== *)
(** ** JavaScript strings *)
(* ===================================================================== *)

Module JsString.

Local Open Scope N_scope.

(** A JavaScript string is a sequence of 16-bit code units; [substring],
    [indexOf], [length] and regular expressions without the [u] flag all
    work on code units. *)
Abbreviation jstr := (list N).

(** Code units of a literal (each character of a Rocq literal is one
    code unit below 256). *)
Fixpoint js (s : string) : jstr :=
  match s with
  | EmptyString => []
  | String a s' => N_of_ascii a :: js s'
  end.

Definition dquote : N := 34.   (* the double quote *)
Definition comma : N := 44.
Definition LF : N := 10.       (* '\n' *)
Definition CR : N := 13.       (* '\r' *)
Definition underscore : N := 95.
Definition hyphen : N := 45.

(** [String(n)] for a non-negative integer. *)
Definition decimal (n : N) : jstr := js (NilZero.string_of_uint (N.to_uint n)).

(** WhiteSpace and LineTerminator code points, the characters that
    [String.prototype.trim] removes. *)
Definition isWhiteSpace (c : N) : bool :=
  (c =? 9) || (c =? 10) || (c =? 11) || (c =? 12) || (c =? 13) || (c =? 32)
  || (c =? 160) || (c =? 5760) || ((8192 <=? c) && (c <=? 8202))
  || (c =? 8232) || (c =? 8233) || (c =? 8239) || (c =? 8287)
  || (c =? 12288) || (c =? 65279).

Fixpoint dropWhile (p : N -> bool) (s : jstr) : jstr :=
  match s with
  | [] => []
  | c :: t => if p c then dropWhile p t else s
  end.

Definition trimStart (s : jstr) : jstr := dropWhile isWhiteSpace s.
Definition trimEnd (s : jstr) : jstr := rev (dropWhile isWhiteSpace (rev s)).
Definition trim (s : jstr) : jstr := trimEnd (trimStart s).

(** [s.substring(0, n)]. *)
Definition substring0 (n : nat) (s : jstr) : jstr := take n s.

(** [s.indexOf(c)] for a one-character needle: the first index, or -1. *)
Fixpoint indexOfFrom (i : Z) (c : N) (s : jstr) : Z :=
  match s with
  | [] => (-1)%Z
  | d :: t => if d =? c then i else indexOfFrom (i + 1)%Z c t
  end.
Definition indexOf (c : N) (s : jstr) : Z := indexOfFrom 0%Z c s.

(** [s.includes(c)] for a one-character needle. *)
Definition includes (c : N) (s : jstr) : bool := existsb (N.eqb c) s.

(** [s.replace(/c/g, r)]: every occurrence of the code unit [c] becomes [r]. *)
Definition replaceChar (c : N) (r : jstr) (s : jstr) : jstr :=
  flat_map (fun d => if d =? c then r else [d]) s.

(** [parts.join(sep)]. *)
Fixpoint join (sep : jstr) (parts : list jstr) : jstr :=
  match parts with
  | [] => []
  | [p] => p
  | p :: rest => p ++ sep ++ join sep rest
  end.

(** [s.split('\n')]: never empty; the empty string gives one empty piece. *)
Fixpoint splitOn (c : N) (s : jstr) : list jstr :=
  match s with
  | [] => [[]]
  | d :: t =>
      if d =? c then [] :: splitOn c t
      else match splitOn c t with
           | [] => [[d]]
           | p :: ps => (d :: p) :: ps
           end
  end.

Definition jstr_eqb (a b : jstr) : bool := bool_decide (a = b).

End JsString.
Import JsString.

(* ===================================================================== *)
(** ** The transcript data model *)
(* ===================================================================== *)

Inductive Role := user | assistant.

#[global] Instance Role_eq_dec : EqDecision Role.
Proof. solve_decision. Defined.

(** The value of the [role] property. *)
Definition roleString (r : Role) : jstr :=
  match r with
  | user => js "user"
  | assistant => js "assistant"
  end.

(** A message object [{ role, content, timestamp }]; extraction never sets
    [timestamp]. *)
Record Message := mkMessage {
  role : Role;
  content : jstr;
  timestamp : option jstr
}.

#[global] Instance Message_eq_dec : EqDecision Message.
Proof. solve_decision. Defined.

Record Report := mkReport {
  reportTitle : jstr;
  reportContent : jstr
}.

(** The object [{ title, messages, report }] built by [extractChatFull]. *)
Record ChatData := mkChatData {
  title : jstr;
  messages : list Message;
  report : option Report
}.

(* ===================================================================== *)
(** ** CSV escaping (lib/export-csv.js and content.js) *)
(* ===================================================================== *)

Module Csv.

Local Open Scope N_scope.

(** The values handed to the escapers: [null], [undefined], a turn number
    or a string. *)
Inductive Value :=
| VNull
| VUndefined
| VNumber (n : N)
| VString (s : jstr).

(** [String(value == null ? '' : value)], which is also [String(v ?? '')]. *)
Definition toStr (v : Value) : jstr :=
  match v with
  | VNull | VUndefined => []
  | VNumber n => decimal n
  | VString s => s
  end.

Definition doubleQuotes (s : jstr) : jstr := replaceChar dquote [dquote; dquote] s.
Definition quoted (s : jstr) : jstr := [dquote] ++ doubleQuotes s ++ [dquote].

(** lib/export-csv.js, [escapeCSV]. *)
Definition escapeCSV (value : Value) : jstr :=
  let str := toStr value in
  if negb (indexOf dquote str =? -1)%Z || negb (indexOf comma str =? -1)%Z
     || negb (indexOf LF str =? -1)%Z || negb (indexOf CR str =? -1)%Z
  then quoted str
  else str.

(** content.js, the [esc] closure of [exportCSV]. *)
Definition esc (v : Value) : jstr :=
  let s := toStr v in
  if includes dquote s || includes comma s || includes LF s
  then quoted s
  else s.

Definition roleLabel (r : Role) : jstr :=
  match r with user => js "You" | assistant => js "Gemini" end.

(** [m.timestamp || ''] and [msg.content || '']. *)
Definition orEmpty (o : option jstr) : jstr := default [] o.

Definition BOM : N := 65279.

(** lib/export-csv.js, [exportToCSV]. *)
Definition exportToCSV (chatData : ChatData) : jstr :=
  let header :=
    join [comma] (map (fun h => escapeCSV (VString h))
                      [js "Turn Number"; js "Role"; js "Content"; js "Timestamp"]) in
  let row (i : nat) (msg : Message) :=
    join [comma] [escapeCSV (VNumber (N.of_nat (i + 1)));
                  escapeCSV (VString (roleLabel (role msg)));
                  escapeCSV (VString (content msg));
                  escapeCSV (VString (orEmpty (timestamp msg)))] in
  [BOM] ++ join [LF] (header :: imap row (messages chatData)).

(** content.js, the text that [exportCSV] hands to [downloadBlob]. *)
Definition exportCSV (data : ChatData) : jstr :=
  let header :=
    [BOM] ++ join [comma] (map (fun h => esc (VString h))
                               [js "Turn"; js "Role"; js "Content"; js "Timestamp"]) in
  let row (i : nat) (m : Message) :=
    join [comma] [esc (VNumber (N.of_nat (i + 1)));
                  esc (VString (roleLabel (role m)));
                  esc (VString (content m));
                  esc (VString (orEmpty (timestamp m)))] in
  let reportRows :=
    match report data with
    | Some r =>
        [join [comma] [esc (VNumber (N.of_nat (length (messages data) + 1)));
                       esc (VString (js "Deep Research Report"));
                       esc (VString (reportContent r));
                       esc (VString [])]]
    | None => []
    end in
  join [LF] (header :: imap row (messages data) ++ reportRows).

(** Reading a field back, RFC 4180: a field enclosed in double quotes
    loses them and every doubled double quote inside stands for one; any
    other field is taken as it is.  This reader is the claim's, the
    sources have none. *)
Fixpoint collapseQuotes (s : jstr) : jstr :=
  match s with
  | [] => []
  | c :: t =>
      match t with
      | c' :: t' =>
          if (c =? dquote) && (c' =? dquote) then dquote :: collapseQuotes t'
          else c :: collapseQuotes t
      | [] => [c]
      end
  end.

Definition decodeField (f : jstr) : jstr :=
  match f with
  | c :: t =>
      if (c =? dquote) && bool_decide (last t = Some dquote)
      then collapseQuotes (removelast t)
      else f
  | [] => []
  end.

(** The characters that make [escapeCSV] quote a field. *)
Definition needsQuoting (s : jstr) : Prop :=
  (dquote ∈ s) \/ (comma ∈ s) \/ (LF ∈ s) \/ (CR ∈ s).

End Csv.

(* ===================================================================== *)
(** ** File names (content.js) *)
(* ===================================================================== *)

Module Filename.

Local Open Scope N_scope.

(** The class [[a-z0-9_\-]] under the flags [gi] without [u]: case folding
    never maps a code unit above 127 to one below 128, so the class holds
    the ASCII letters of both cases, the digits, [_] and [-]. *)
Definition isSafeChar (c : N) : bool :=
  ((97 <=? c) && (c <=? 122)) || ((65 <=? c) && (c <=? 90))
  || ((48 <=? c) && (c <=? 57)) || (c =? underscore) || (c =? hyphen).

(** [title || 'gemini-chat']: [None] stands for [null] and [undefined],
    the empty string is falsy too. *)
Definition orDefaultName (title : option jstr) : jstr :=
  match title with
  | Some (c :: t) => c :: t
  | _ => js "gemini-chat"
  end.

Definition sanitizeFilename (title : option jstr) : jstr :=
  substring0 80
    (map (fun c => if isSafeChar c then c else underscore) (orDefaultName title)).

(** The characters [sanitizeFilename] lets through. *)
Definition SafeChar (c : N) : Prop :=
  (65 <= c <= 90) \/ (97 <= c <= 122) \/ (48 <= c <= 57)
  \/ c = underscore \/ c = hyphen.

End Filename.

(* ===================================================================== *)
(** ** Deduplication (content.js) *)
(* ===================================================================== *)

Module Dedup.

(** [m.role + '::' + m.content.substring(0, 200).trim()] *)
Definition fingerprint (m : Message) : jstr :=
  roleString (role m) ++ js "::" ++ trim (substring0 200 (content m)).

(** [messages.filter(m => ...)] with the closure's [seen] set threaded
    through the calls of the callback. *)
Fixpoint filterSeen (seen : gset jstr) (msgs : list Message) : list Message :=
  match msgs with
  | [] => []
  | m :: rest =>
      let fp := fingerprint m in
      if bool_decide (fp ∈ seen) then filterSeen seen rest
      else m :: filterSeen ({[ fp ]} ∪ seen) rest
  end.

Definition deduplicateMessages (msgs : list Message) : list Message :=
  filterSeen ∅ msgs.

(** The fingerprint as the specification words it: the role concatenated
    with the first 200 characters of the trimmed content. *)
Definition specFingerprint (m : Message) : jstr :=
  roleString (role m) ++ substring0 200 (trim (content m)).

(** Keep the first message bearing each [specFingerprint]. *)
Fixpoint specFilterSeen (seen : gset jstr) (msgs : list Message) : list Message :=
  match msgs with
  | [] => []
  | m :: rest =>
      let fp := specFingerprint m in
      if bool_decide (fp ∈ seen) then specFilterSeen seen rest
      else m :: specFilterSeen ({[ fp ]} ∪ seen) rest
  end.

Definition specDeduplicate (msgs : list Message) : list Message :=
  specFilterSeen ∅ msgs.

End Dedup.

(* ===================================================================== *)
(** ** The scroll-to-top loop (content.js, scrollToTopAndLoadAll) *)
(* ===================================================================== *)

Module Converger.

Definition MAX_ATTEMPTS : nat := 100.
Definition STABLE_THRESHOLD : nat := 3.
Definition SETTLE_MS : nat := 600.
Definition FINAL_SETTLE_MS : nat := 300.

Inductive Phase := starting | scrolling_up | done.

Inductive ScrollTarget := Top | Bottom.   (* [0] and [scroller.scrollHeight] *)

(** What the function does to its environment, in order. *)
Inductive Event :=
| SetScrollTop (target : ScrollTarget)
| Sleep (ms : nat)
| Progress (phase : Phase) (collected : nat)
| WalkTree.                                (* [extractCurrentMessages] ran *)

(** The measurement probe: [probe t] is the number of
    [.conversation-container] elements under the scroller once [t] settle
    waits have elapsed; [probe 0] is the initial count. *)
Definition Probe := nat -> nat.

(** The loop variables [stable] and [lastCount]. *)
Record Counters := mkCounters {
  stable : nat;
  lastCount : nat
}.

Inductive Next :=
| Break (c : Counters)
| Continue (c : Counters).

(** The two branches that end the loop body, given the fresh [count]. *)
Definition compare (count : nat) (c : Counters) : Next :=
  if Nat.eqb count (lastCount c) then
    let stable' := S (stable c) in
    if Nat.leb STABLE_THRESHOLD stable'
    then Break (mkCounters stable' (lastCount c))
    else Continue (mkCounters stable' (lastCount c))
  else Continue (mkCounters 0 count).

Inductive Exit := Stable | Exhausted.

Record LoopResult := mkLoopResult {
  exit : Exit;
  attempts : nat;          (* the number of probes taken in the loop *)
  final : Counters;
  trace : list Event
}.

Definition iterationEvents (count : nat) : list Event :=
  [SetScrollTop Top; Sleep SETTLE_MS; Progress scrolling_up count].

(** [for (let i = 0; i < 100; i++) { ... }]: [remaining] is [100 - i]. *)
Fixpoint loop (probe : Probe) (remaining i : nat) (c : Counters)
    (tr : list Event) : LoopResult :=
  match remaining with
  | O => mkLoopResult Exhausted i c tr
  | S remaining' =>
      let count := probe (S i) in
      let tr' := tr ++ iterationEvents count in
      match compare count c with
      | Break c' => mkLoopResult Stable (S i) c' tr'
      | Continue c' => loop probe remaining' (S i) c' tr'
      end
  end.

(** The part of [scrollToTopAndLoadAll] up to the end of the loop. *)
Definition converge (probe : Probe) : LoopResult :=
  let lastCount := probe 0 in
  loop probe MAX_ATTEMPTS 0 (mkCounters 0 lastCount) [Progress starting lastCount].

(** The probes of [converge] are numbered from 1; the count has stopped
    growing after [k] of them when every later measurement equals the
    [k]-th one ([k = 0]: the initial count). *)
Definition stopsGrowingAfter (k : nat) (probe : Probe) : Prop :=
  forall t, k <= t -> probe t = probe k.

(** The number of scroll perturbations ([scrollTop = 0]) in a trace. *)
Definition isPerturbation (e : Event) : bool :=
  match e with SetScrollTop Top => true | _ => false end.

Definition perturbations (tr : list Event) : nat :=
  length (List.filter isPerturbation tr).

End Converger.

(* ===================================================================== *)
(** ** The document tree *)
(* ===================================================================== *)

Module Dom.

Local Open Scope N_scope.

(** A node of the host document.  [tag] is the value of
    [tagName.toLowerCase()]; [Other] stands for every node that is neither
    a text node nor an element (comments and the like). *)
Inductive Node :=
| Text (data : jstr)
| Other
| Element (tag : jstr) (attrs : list (jstr * jstr)) (children : list Node).

(** An element as a script holds it: the node together with what its
    ancestors say about it ([insidePre]: some proper ancestor is a [pre],
    which is what the walk up [parentElement] of [isInsidePre] finds). *)
Record Handle := mkHandle {
  insidePre : bool;
  node : Node
}.

Definition tagOf (n : Node) : jstr :=
  match n with Element t _ _ => t | _ => [] end.

Definition childNodes (n : Node) : list Node :=
  match n with Element _ _ ks => ks | _ => [] end.

Definition isElement (n : Node) : bool :=
  match n with Element _ _ _ => true | _ => false end.

(** [el.getAttribute(name)] *)
Fixpoint lookupAttr (name : jstr) (attrs : list (jstr * jstr)) : option jstr :=
  match attrs with
  | [] => None
  | (k, v) :: rest => if jstr_eqb k name then Some v else lookupAttr name rest
  end.

Definition getAttribute (name : jstr) (n : Node) : option jstr :=
  match n with Element _ attrs _ => lookupAttr name attrs | _ => None end.

(** [el.className] and [el.id]: the attribute, or the empty string. *)
Definition className (n : Node) : jstr := default [] (getAttribute (js "class") n).
Definition idOf (n : Node) : jstr := default [] (getAttribute (js "id") n).

(** ASCII whitespace separates the tokens of a class attribute. *)
Definition isAsciiSpace (c : N) : bool :=
  (c =? 9) || (c =? 10) || (c =? 12) || (c =? 13) || (c =? 32).

Fixpoint tokensFrom (cur : jstr) (s : jstr) : list jstr :=
  match s with
  | [] => match cur with [] => [] | _ => [rev cur] end
  | c :: t =>
      if isAsciiSpace c
      then match cur with [] => tokensFrom [] t | _ => rev cur :: tokensFrom [] t end
      else tokensFrom (c :: cur) t
  end.

Definition classList (n : Node) : list jstr := tokensFrom [] (className n).

(** [el.classList.contains(tok)] *)
Definition hasClass (tok : jstr) (n : Node) : bool :=
  existsb (jstr_eqb tok) (classList n).

(** [el.textContent]: the text of all text nodes below, in document order. *)
Fixpoint textContent (n : Node) : jstr :=
  match n with
  | Text d => d
  | Other => []
  | Element _ _ ks => flat_map textContent ks
  end.

(** The selectors the sources use. *)
Inductive Selector :=
| ByTag (t : jstr)                    (* [code], [tr], [user-query] ... *)
| ByClass (c : jstr)                  (* [.query-text] ... *)
| ByTagClass (t c : jstr)             (* [infinite-scroller.chat-history] *)
| Either (a b : Selector).            (* [th, td] *)

Fixpoint selects (sel : Selector) (n : Node) : bool :=
  isElement n &&
  match sel with
  | ByTag t => jstr_eqb (tagOf n) t
  | ByClass c => hasClass c n
  | ByTagClass t c => jstr_eqb (tagOf n) t && hasClass c n
  | Either a b => selects a n || selects b n
  end.

Definition isPreTag (t : jstr) : bool := jstr_eqb t (js "pre").

(** An element followed by its element descendants, in document order. *)
Fixpoint subtree (inPre : bool) (n : Node) : list Handle :=
  match n with
  | Element t _ ks =>
      mkHandle inPre n :: flat_map (subtree (inPre || isPreTag t)) ks
  | _ => []
  end.

Definition descendants (h : Handle) : list Handle :=
  match node h with
  | Element t _ ks => flat_map (subtree (insidePre h || isPreTag t)) ks
  | _ => []
  end.

(** [el.querySelectorAll(sel)] and [el.querySelector(sel)] *)
Definition querySelectorAll (sel : Selector) (h : Handle) : list Handle :=
  List.filter (fun d => selects sel (node d)) (descendants h).

Definition querySelector (sel : Selector) (h : Handle) : option Handle :=
  head (querySelectorAll sel h).

(** [document.querySelector(sel)]: the document element itself counts. *)
Definition documentQuerySelector (sel : Selector) (doc : Node) : option Handle :=
  head (List.filter (fun d => selects sel (node d)) (subtree false doc)).

(** [a || b] on element handles. *)
Definition orElse {A} (a : option A) (b : option A) : option A :=
  match a with Some _ => a | None => b end.

(** [a || b] on strings that may be [null]: the first non-empty one. *)
Definition orString (a : option jstr) (b : jstr) : jstr :=
  match a with
  | Some (c :: t) => c :: t
  | _ => b
  end.

End Dom.

(* ===================================================================== *)
(** ** Rendering a subtree to markup (content.js) *)
(* ===================================================================== *)

Module Render.

Import Dom.
Local Open Scope N_scope.

Definition isWordChar (c : N) : bool :=
  ((97 <=? c) && (c <=? 122)) || ((65 <=? c) && (c <=? 90))
  || ((48 <=? c) && (c <=? 57)) || (c =? underscore).

Fixpoint takeWhile (p : N -> bool) (s : jstr) : jstr :=
  match s with
  | c :: t => if p c then c :: takeWhile p t else []
  | [] => []
  end.

Fixpoint stripPrefix (p s : jstr) : option jstr :=
  match p, s with
  | [], _ => Some s
  | a :: p', b :: s' => if a =? b then stripPrefix p' s' else None
  | _ :: _, [] => None
  end.

(** One alternative of the pattern at the start of [s]: the keyword, a
    hyphen and the longest non-empty run of word characters. *)
Definition langAfter (keyword s : jstr) : option jstr :=
  match stripPrefix (keyword ++ [hyphen]) s with
  | Some rest =>
      match takeWhile isWordChar rest with
      | [] => None
      | w => Some w
      end
  | None => None
  end.

(** [/(?:language|lang)-(\w+)/] anchored at the start of [s]. *)
Definition langAt (s : jstr) : option jstr :=
  orElse (langAfter (js "language") s) (langAfter (js "lang") s).

(** [cls.match(/(?:language|lang)-(\w+)/)]: group 1 of the leftmost match. *)
Fixpoint matchLanguageClass (s : jstr) : option jstr :=
  match s with
  | [] => None
  | _ :: t =>
      match langAt s with
      | Some w => Some w
      | None => matchLanguageClass t
      end
  end.

(** The class names of the block and of its first [code] descendant. *)
Definition classesOf (pre : Handle) : jstr :=
  className (node pre) ++ js " " ++
  match querySelector (ByTag (js "code")) pre with
  | Some codeEl => className (node codeEl)
  | None => []
  end.

(** [pre.getAttribute('data-language') || pre.getAttribute('data-lang')] *)
Definition dataLanguage (pre : Handle) : jstr :=
  orString (getAttribute (js "data-language") (node pre))
    (orString (getAttribute (js "data-lang") (node pre)) []).

(** content.js, [detectCodeLanguage]. *)
Definition detectCodeLanguage (pre : Handle) : jstr :=
  match matchLanguageClass (classesOf pre) with
  | Some lang => lang
  | None => dataLanguage pre
  end.

Definition fenceMark : jstr := js "```".

(** The template [\n```${lang}\n${code}\n```\n]. *)
Definition fence (lang code : jstr) : jstr :=
  [LF] ++ fenceMark ++ lang ++ [LF] ++ code ++ [LF] ++ fenceMark ++ [LF].

Definition tagIn (tags : list jstr) (t : jstr) : bool :=
  existsb (jstr_eqb t) tags.

(** [/^h[1-6]$/.test(tag)], with the level [parseInt(tag[1], 10)]. *)
Definition headingLevel (t : jstr) : option nat :=
  match t with
  | [h; d] => if (h =? 104) && (49 <=? d) && (d <=? 54)
              then Some (N.to_nat (d - 48)) else None
  | _ => None
  end.

Definition blockTags : list jstr :=
  map js ["p"; "div"; "h1"; "h2"; "h3"; "h4"; "h5"; "h6"; "blockquote"; "section";
          "article"; "header"; "footer"; "br"; "hr"]%string.

Definition tableLine (cells : list jstr) : jstr :=
  js "| " ++ join (js " | ") cells ++ js " |" ++ [LF].

(** content.js, [formatTable]: what it pushes, in order. *)
Definition formatTable (table : Handle) (parts : list jstr) : list jstr :=
  let rowParts (ri : nat) (row : Handle) : list jstr :=
    let cells :=
      map (fun c => trim (textContent (node c)))
          (querySelectorAll (Either (ByTag (js "th")) (ByTag (js "td"))) row) in
    tableLine cells ::
    (if Nat.eqb ri 0 && bool_decide (is_Some (querySelector (ByTag (js "th")) row))
     then [tableLine (map (fun _ => js "---") cells)] else []) in
  parts ++ concat (imap rowParts (querySelectorAll (ByTag (js "tr")) table)).

(** content.js, [processNode]; [parts] is the array the calls push to. *)
Fixpoint processNode (inPre : bool) (n : Node) (parts : list jstr) {struct n} : list jstr :=
  match n with
  | Text d => parts ++ [d]
  | Other => parts
  | Element tag attrs kids =>
      let here := mkHandle inPre n in
      let below := inPre || isPreTag tag in
      (* [for (const child of node.childNodes) processNode(child, parts)] *)
      let each :=
        fix each (ks : list Node) (parts : list jstr) : list jstr :=
          match ks with
          | [] => parts
          | k :: ks' => each ks' (processNode below k parts)
          end in
      (* [node.querySelectorAll(':scope > li').forEach((li, i) => ...)] *)
      let items (ordered : bool) :=
        fix items (ks : list Node) (i : nat) (parts : list jstr) : list jstr :=
          match ks with
          | [] => parts
          | k :: ks' =>
              if selects (ByTag (js "li")) k then
                let prefix := if ordered then decimal (N.of_nat (i + 1)) ++ js ". "
                              else js "- " in
                items ks' (S i) (processNode below k (parts ++ [prefix]) ++ [[LF]])
              else items ks' i parts
          end in
      if tagIn [js "span"] tag && hasClass (js "screen-reader-only") n then parts
      else if jstr_eqb (idOf n) (js "gce-root") || jstr_eqb (idOf n) (js "gce-toast")
      then parts
      else if tagIn [js "pre"; js "code-block"] tag then
        let codeEl := default here (querySelector (ByTag (js "code")) here) in
        let lang := detectCodeLanguage here in
        parts ++ [fence lang (trim (textContent (node codeEl)))]
      else if tagIn [js "code"] tag && negb inPre then
        parts ++ [js "`" ++ textContent n ++ js "`"]
      else if tagIn [js "img"] tag then parts ++ [js "[Image attachment]"]
      else if tagIn [js "ul"; js "ol"] tag then
        items (tagIn [js "ol"] tag) kids 0%nat (parts ++ [[LF]])
      else if tagIn [js "li"] tag then each kids parts
      else if tagIn [js "table"] tag then formatTable here (parts ++ [[LF]]) ++ [[LF]]
      else if tagIn [js "strong"; js "b"] tag then each kids (parts ++ [js "**"]) ++ [js "**"]
      else if tagIn [js "em"; js "i"] tag then each kids (parts ++ [js "*"]) ++ [js "*"]
      else if tagIn [js "br"] tag then parts ++ [[LF]]
      else if tagIn [js "hr"] tag then parts ++ [[LF] ++ js "---" ++ [LF]]
      else match headingLevel tag with
      | Some level =>
          each kids (parts ++ [[LF] ++ repeat 35 level ++ js " "]) ++ [[LF]]
      | None =>
          if tagIn [js "blockquote"] tag then each kids (parts ++ [[LF] ++ js "> "]) ++ [[LF]]
          else
            let isBlock := tagIn blockTags tag in
            let opened := if isBlock then parts ++ [[LF]] else parts in
            let walked := each kids opened in
            if isBlock then walked ++ [[LF]] else walked
      end
  end.

(** content.js, [extractFormattedText]; [None] is a missing element. *)
Definition extractFormattedText (element : option Handle) : jstr :=
  match element with
  | None => []
  | Some el => trim (concat (processNode (insidePre el) (node el) []))
  end.

End Render.

(* ===================================================================== *)
(** ** The content script of the popup: language detection with a sibling hint *)
(* ===================================================================== *)

Module PopupContent.

Import Dom Render.
Local Open Scope N_scope.

Definition knownLangs : list jstr :=
  map js ["python"; "javascript"; "typescript"; "java"; "c++"; "c#"; "go";
          "rust"; "ruby"; "php"; "swift"; "kotlin"; "sql"; "html"; "css";
          "bash"; "shell"; "json"; "yaml"; "xml"; "markdown"; "r"; "scala"]%string.

(** [String.prototype.toLowerCase] restricted to what a literal can hold:
    it agrees with the built-in on strings of ASCII characters. *)
Definition asciiToLowerCase (s : jstr) : jstr :=
  map (fun c => if (65 <=? c) && (c <=? 90) then c + 32 else c) s.

Section WithCaseMapping.

(** The Unicode case mapping of the host, [String.prototype.toLowerCase]. *)
Variable toLowerCase : jstr -> jstr.

(** The third step: [prev] is [previousElementSibling]. *)
Definition siblingLanguage (prev : option Node) : option jstr :=
  match prev with
  | Some p =>
      let tc := textContent p in
      if negb (Nat.eqb (length tc) 0) && Nat.ltb (length tc) 30 then
        let text := toLowerCase (trim tc) in
        if existsb (jstr_eqb text) knownLangs then Some text else None
      else None
  | None => None
  end.

(** [detectCodeLanguage(preOrCodeBlock)] of the content script that serves
    the popup only (it injects no button). *)
Definition detectCodeLanguage (preOrCodeBlock : Handle) (prev : option Node) : jstr :=
  match matchLanguageClass (classesOf preOrCodeBlock) with
  | Some lang => lang
  | None =>
      match dataLanguage preOrCodeBlock with
      | c :: t => c :: t
      | [] =>
          match siblingLanguage prev with
          | Some text => text
          | None => []
          end
      end
  end.

(** The part pushed for a [pre] or [code-block] element. *)
Definition codeBlockPart (block : Handle) (prev : option Node) : jstr :=
  let codeEl := default block (querySelector (ByTag (js "code")) block) in
  fence (detectCodeLanguage block prev) (trim (textContent (node codeEl))).

End WithCaseMapping.

End PopupContent.

(* ===================================================================== *)
(** ** Assembling the transcript (content.js) *)
(* ===================================================================== *)

Module Assemble.

Import Dom Render Converger.

(** [uq.querySelector('.query-text') || uq.querySelector('.query-content')
     || uq.querySelector('user-query-content') || uq] *)
Definition queryElement (uq : Handle) : Handle :=
  default uq
    (orElse (querySelector (ByClass (js "query-text")) uq)
       (orElse (querySelector (ByClass (js "query-content")) uq)
          (querySelector (ByTag (js "user-query-content")) uq))).

(** [mr.querySelector('message-content')
     || mr.querySelector('.model-response-text') || mr] *)
Definition responseElement (mr : Handle) : Handle :=
  default mr
    (orElse (querySelector (ByTag (js "message-content")) mr)
       (querySelector (ByClass (js "model-response-text")) mr)).

(** [if (text) messages.push({ role, content: text })] *)
Definition pushIfText (r : Role) (text : jstr) (messages : list Message) : list Message :=
  match text with
  | [] => messages
  | _ :: _ => messages ++ [mkMessage r text None]
  end.

(** The body of the [forEach] callback of [extractCurrentMessages].  No
    operation of the model throws, so the [try]/[catch] around it is not
    represented. *)
Definition extractContainer (messages : list Message) (container : Handle) : list Message :=
  let afterQuery :=
    match querySelector (ByTag (js "user-query")) container with
    | Some uq => pushIfText user (extractFormattedText (Some (queryElement uq))) messages
    | None => messages
    end in
  match querySelector (ByTag (js "model-response")) container with
  | Some mr =>
      pushIfText assistant (extractFormattedText (Some (responseElement mr))) afterQuery
  | None => afterQuery
  end.

Definition scrollerSelector : Selector :=
  ByTagClass (js "infinite-scroller") (js "chat-history").
Definition containerSelector : Selector := ByClass (js "conversation-container").

(** content.js, [extractCurrentMessages], on the document [doc]. *)
Definition extractCurrentMessages (doc : Node) : list Message :=
  match documentQuerySelector scrollerSelector doc with
  | None => []
  | Some scroller =>
      fold_left extractContainer (querySelectorAll containerSelector scroller) []
  end.

(** The host page over time: [host t] is the document once [t] waits have
    elapsed.  The scroller found at the start is taken to stay the first
    element matching its selector. *)
Definition Host := nat -> Node.

(** [scroller.querySelectorAll('.conversation-container').length] *)
Definition containerCount (doc : Node) : nat :=
  match documentQuerySelector scrollerSelector doc with
  | Some scroller => length (querySelectorAll containerSelector scroller)
  | None => 0
  end.

Definition probeOf (host : Host) : Probe := fun t => containerCount (host t).

Definition noChatError : jstr := js "No chat found. Open a Gemini conversation first.".

(** content.js, [scrollToTopAndLoadAll]: the thrown message, or the
    messages with everything done on the way. *)
Definition scrollToTopAndLoadAll (host : Host) : jstr + (list Message * list Event) :=
  match documentQuerySelector scrollerSelector (host 0) with
  | None => inl noChatError
  | Some _ =>
      let r := converge (probeOf host) in
      let msgs := extractCurrentMessages (host (S (attempts r))) in
      inr (msgs,
           trace r ++ [SetScrollTop Top; Sleep FINAL_SETTLE_MS; WalkTree;
                       SetScrollTop Bottom; Progress done (length msgs)])
  end.

End Assemble.

(* ===================================================================== *)
(** ** The markdown writers (content.js and lib/export-markdown.js) *)
(* ===================================================================== *)

Module Markdown.

Import Csv.

Definition quoteLine (l : jstr) : jstr := js "> " ++ l.

Definition metadataLine (now : jstr) (count : nat) : jstr :=
  js "*Exported on " ++ now ++ js " | " ++ decimal (N.of_nat count) ++ js " messages*".

(** What one iteration of [data.messages.forEach] pushes (content.js). *)
Definition messageLines (m : Message) : list jstr :=
  [js "## " ++ roleLabel (role m); []]
  ++ match role m with
     | user => map quoteLine (splitOn LF (content m))
     | assistant => [content m]
     end
  ++ [[]].

Definition reportLines (r : Report) : list jstr :=
  [js "---"; []; js "# Deep Research Report: " ++ reportTitle r; [];
   reportContent r; []].

(** content.js, [exportMarkdown]: the array [lines]; [now] is
    [new Date().toLocaleString()]. *)
Definition exportMarkdownLines (now : jstr) (data : ChatData) : list jstr :=
  [js "# " ++ title data; []; metadataLine now (length (messages data)); [];
   js "---"; []]
  ++ flat_map messageLines (messages data)
  ++ match report data with Some r => reportLines r | None => [] end.

(** The text handed to [downloadBlob]. *)
Definition exportMarkdown (now : jstr) (data : ChatData) : jstr :=
  join [LF] (exportMarkdownLines now data).

(** lib/export-markdown.js: [' (' + msg.timestamp + ')'] when the
    timestamp is truthy. *)
Definition timestampSuffix (m : Message) : jstr :=
  match timestamp m with
  | Some (c :: t) => js " (" ++ (c :: t) ++ js ")"
  | _ => []
  end.

Definition libMessageLines (msg : Message) : list jstr :=
  [js "## " ++ roleLabel (role msg) ++ timestampSuffix msg; []]
  ++ match role msg with
     | user => map quoteLine (splitOn LF (content msg))
     | assistant => [content msg]
     end
  ++ [[]].

(** [chatData.title || 'Untitled Chat'] *)
Definition titleOrUntitled (t : jstr) : jstr :=
  match t with [] => js "Untitled Chat" | _ => t end.

Definition exportToMarkdownLines (now : jstr) (chatData : ChatData) : list jstr :=
  [js "# " ++ titleOrUntitled (title chatData); [];
   metadataLine now (length (messages chatData)); []; js "---"; []]
  ++ flat_map libMessageLines (messages chatData).

(** lib/export-markdown.js, [exportToMarkdown]. *)
Definition exportToMarkdown (now : jstr) (chatData : ChatData) : jstr :=
  join [LF] (exportToMarkdownLines now chatData).

(** The lines of a text. *)
Definition linesOf (text : jstr) : list jstr := splitOn LF text.

(** How a line of a message's content is written. *)
Definition emittedLines (m : Message) (l : jstr) : jstr :=
  match role m with
  | user => quoteLine l
  | assistant => l
  end.

End Markdown.

(* ===================================================================== *)
(** ** Export requests: lib/exporter.js, background.js and the popup *)
(* ===================================================================== *)

Module Coordinator.

Import Csv Filename Markdown Converger Assemble Dedup.

(** What a request finds around it. *)
Record Env := mkEnv {
  now : jstr;                 (* [new Date().toLocaleString()] *)
  markdownLoaded : bool;      (* [window.GeminiExporter.downloadMarkdown] is a function *)
  csvLoaded : bool;           (* [window.GeminiExporter.downloadCSV] is a function *)
  pdfLoaded : bool;           (* [window.GeminiExporter.exportToPDF] is a function *)
  jspdfLoaded : bool          (* [window.jspdf.jsPDF] is there *)
}.

Inductive ToastKind := success | error.

Inductive Effect :=
| OnPage (e : Event)                     (* done by the content script *)
| Downloaded (filename body : jstr)
| SavedPdf (filename : jstr)
| Toast (kind : ToastKind) (message : jstr).

Inductive Outcome :=
| Resolved
| Rejected (message : jstr).

Definition supportedFormats : list jstr := [js "pdf"; js "markdown"; js "csv"].

Definition isSupported (format : jstr) : bool :=
  existsb (jstr_eqb format) supportedFormats.

(** background.js, [handleExport]: the thrown message, or the returned
    [{ format, messageCount }]; [None] is a falsy [data] or one without
    [messages]. *)
Definition handleExport (format : jstr) (data : option ChatData) : jstr + (jstr * nat) :=
  if negb (isSupported format) then inl (js "Unsupported export format: " ++ format)
  else
    match data with
    | Some d =>
        match messages d with
        | [] => inl (js "No chat data to export")
        | _ => inr (format, length (messages d))
        end
    | None => inl (js "No chat data to export")
    end.

(** The file name of the lib writers:
    [(chatData.title || 'gemini-chat').replace(/[^a-z0-9_\-]/gi, '_') + ext]. *)
Definition libFilename (t : jstr) (ext : jstr) : jstr :=
  map (fun c => if isSafeChar c then c else underscore) (orDefaultName (Some t)) ++ ext.

Definition invalidDataMessage : jstr :=
  js "Invalid chat data: expected an object with a " ++ [dquote] ++ js "messages"
  ++ [dquote] ++ js " array.".

Definition noMessagesMessage : jstr := js "No messages to export.".

Definition wrapQuoted (s : jstr) : jstr := [dquote] ++ s ++ [dquote].

Definition unsupportedMessage (format : jstr) : jstr :=
  js "Unsupported export format: " ++ wrapQuoted format ++ js ". Use "
  ++ wrapQuoted (js "pdf") ++ js ", " ++ wrapQuoted (js "markdown") ++ js ", or "
  ++ wrapQuoted (js "csv") ++ js ".".

(** [reject(new Error('Export failed (' + format + '): ' + err.message))] *)
Definition exportFailed (format message : jstr) : Outcome :=
  Rejected (js "Export failed (" ++ format ++ js "): " ++ message).

(** lib/exporter.js, [exportChat]: how the promise settles and what was
    written; [None] is chat data that fails the first test. *)
Definition exportChat (env : Env) (chatData : option ChatData) (format : jstr)
    : Outcome * list Effect :=
  match chatData with
  | None => (exportFailed format invalidDataMessage, [])
  | Some d =>
      match messages d with
      | [] => (exportFailed format noMessagesMessage, [])
      | _ =>
          if jstr_eqb format (js "markdown") then
            if markdownLoaded env
            then (Resolved,
                  [Downloaded (libFilename (title d) (js ".md")) (exportToMarkdown (now env) d)])
            else (exportFailed format (js "Markdown export module is not loaded."), [])
          else if jstr_eqb format (js "csv") then
            if csvLoaded env
            then (Resolved, [Downloaded (libFilename (title d) (js ".csv")) (exportToCSV d)])
            else (exportFailed format (js "CSV export module is not loaded."), [])
          else if jstr_eqb format (js "pdf") then
            if pdfLoaded env then
              if jspdfLoaded env
              then (Resolved, [SavedPdf (libFilename (title d) (js ".pdf"))])
              else (exportFailed format (js "jsPDF library is not loaded. Cannot generate PDF."), [])
            else (exportFailed format (js "PDF export module is not loaded."), [])
          else (exportFailed format (unsupportedMessage format), [])
      end
  end.

(** The page a request works on.  [chatTitle] is the result of
    [getChatTitle()] and [deepResearch] that of
    [extractDeepResearchReport()]; both are taken as given. *)
Record Page := mkPage {
  host : Host;
  chatTitle : jstr;
  deepResearch : option Report
}.

(** content.js, [extractChatFull]: the response with what was done on
    the page. *)
Definition extractChatFull (page : Page) : (jstr + ChatData) * list Event :=
  match scrollToTopAndLoadAll (host page) with
  | inl message => (inl message, [])
  | inr (msgs, events) =>
      (inr (mkChatData (chatTitle page) (deduplicateMessages msgs) (deepResearch page)),
       events)
  end.

(** The popup's [handleExport(format)] on a connected tab with no export
    running: the [extractChat] message is answered by [extractChatFull],
    then the response goes to [exportChat]. *)
Definition popupHandleExport (env : Env) (page : Page) (format : jstr) : list Effect :=
  let '(response, events) := extractChatFull page in
  map OnPage events ++
  match response with
  | inl message => [Toast error (Dom.orString (Some message) (js "Failed to extract chat data"))]
  | inr data =>
      match messages data with
      | [] => [Toast error (js "No chat messages found on this page")]
      | _ =>
          match exportChat env (Some data) format with
          | (Resolved, written) =>
              written ++
              [Toast success (js "Exported " ++ decimal (N.of_nat (length (messages data)))
                              ++ js " messages!")]
          | (Rejected message, written) =>
              written ++ [Toast error (Dom.orString (Some message) (js "Export failed"))]
          end
      end
  end.

Definition isOnPage (e : Effect) : bool :=
  match e with OnPage _ => true | _ => false end.

End Coordinator.

(* ===================================================================== *)
(** ** Sample inputs *)
(* ===================================================================== *)

Module Samples.

Import Dom Converger Coordinator.

Definition el (tag : string) (class : string) (children : list Node) : Node :=
  Element (js tag)
    (match class with EmptyString => [] | _ => [(js "class", js class)] end)
    children.

(** A [.conversation-container] with both sides. *)
Definition turnContainer (query response : list Node) : Node :=
  el "div" "conversation-container"
    [el "user-query" ""
       [el "span" "screen-reader-only" [Text (js "You said")];
        el "div" "query-text" query];
     el "model-response" "" [el "message-content" "" response]].

Definition chatPage (containers : list Node) : Node :=
  el "html" "" [el "body" "" [el "infinite-scroller" "chat-history" containers]].

(** A turn whose query holds white space only. *)
Definition blankQuery : Node :=
  turnContainer [Text (js "  " ++ [LF] ++ js " ")] [el "p" "" [Text (js "Hi")]].

(** A code block with no class and no data attribute, after a line that
    names its language. *)
Definition languageLine : Node := el "div" "" [Text (js "Python")].
Definition plainBlock : Node := el "pre" "" [el "code" "" [Text (js "print(1)")]].
Definition labelledBlock : Node := el "div" "" [languageLine; plainBlock].

Definition fencedPython : jstr :=
  js "Hi there" ++ [LF] ++ js "```python" ++ [LF] ++ js "print(1)" ++ [LF] ++ js "```".

Definition demo : ChatData :=
  mkChatData (js "Demo")
    [mkMessage user (js "Hello") None; mkMessage assistant fencedPython None]
    None.

(** Two trimmed contents that agree on their first 199 characters; the
    200th character of the first one is a space. *)
Definition longPrefix : jstr := repeat 97%N 199.
Definition spaced : Message := mkMessage user (longPrefix ++ js " b") None.
Definition unspaced : Message := mkMessage user longPrefix None.

(** A field with a carriage return and nothing else to escape. *)
Definition crField : jstr := js "a" ++ [CR] ++ js "b".

(** [He said "hi", then left] *)
Definition saidHi : jstr :=
  js "He said " ++ [dquote] ++ js "hi" ++ [dquote] ++ js ", then left".

(** A page that grows by one container per probe up to [limit]. *)
Definition growingTo (limit : nat) : Probe := fun t => Nat.min t limit.

Definition allLoaded : Env := mkEnv (js "1/1/2026, 10:00:00 AM") true true true true.

Definition staticPage : Page :=
  mkPage (fun _ => chatPage [turnContainer [Text (js "Hello")] [Text (js "Hi")]])
         (js "Demo") None.

End Samples.

(* ===================================================================== *)
(** ** Measures on what a run did *)
(* ===================================================================== *)

Module Measures.

Import Converger.


(** The probe numbered [a] completes three stable rounds: the three
    probes up to it each measured what the one before measured. *)
Definition threeStableAt (probe : Probe) (a : nat) : Prop :=
  3 <= a /\ probe (a - 3) = probe (a - 2) /\ probe (a - 2) = probe (a - 1)
  /\ probe (a - 1) = probe a.

(** What the loop variables say about the measurements taken so far:
    [lastCount] is the latest one, and [stable] is the length of the run
    of unchanged measurements that ends there. *)
Definition tracks (probe : Probe) (i : nat) (c : Counters) : Prop :=
  lastCount c = probe i
  /\ stable c <= i
  /\ (forall j, i - stable c <= j <= i -> probe j = probe i)
  /\ (stable c = i \/ probe (i - stable c - 1) <> probe (i - stable c)).

(** A text that [trim] would leave alone: it neither starts nor ends with
    a character that [trim] removes. *)
Definition Trimmed (s : jstr) : Prop :=
  forall c, head s = Some c \/ last s = Some c -> isWhiteSpace c = false.

End Measures.

(* ===================================================================== *)
(** ** More sample inputs *)
(* ===================================================================== *)

Module MoreSamples.

Import Dom Converger Coordinator Samples.



End MoreSamples.

(* ===================================================================== *)
(** ** Conditions on export requests *)
(* ===================================================================== *)

Module Requests.

Import Coordinator.

(** The writer that [exportChat] calls for [format] is loaded and can
    run. *)
Definition writerReady (env : Env) (format : jstr) : bool :=
  (jstr_eqb format (js "markdown") && markdownLoaded env)
  || (jstr_eqb format (js "csv") && csvLoaded env)
  || (jstr_eqb format (js "pdf") && pdfLoaded env && jspdfLoaded env).

(** A file was written. *)
Definition isFile (e : Effect) : bool :=
  match e with Downloaded _ _ | SavedPdf _ => true | _ => false end.

(** Chat data with at least one message. *)
Definition hasMessages (chatData : option ChatData) : Prop :=
  exists d, chatData = Some d /\ messages d <> [].

(** No message carries a truthy timestamp. *)
Definition untimed (d : ChatData) : Prop :=
  forall m, m ∈ messages d -> Markdown.timestampSuffix m = [].

(** What [sanitizeFilename] puts in the place of a character. *)
Definition safeOrUnderscore (c : N) : N :=
  if Filename.isSafeChar c then c else underscore.

Definition isDigit (c : N) : bool := ((48 <=? c) && (c <=? 57))%N.

End Requests.

(* ===================================================================== *)
(** ** The loops inside processNode, by name *)
(* ===================================================================== *)

Module Walk.

Import Dom Render.

(** [for (const child of node.childNodes) processNode(child, parts)], with
    [visit] for the call. *)
Definition eachChild (visit : Node -> list jstr -> list jstr) :=
  fix each (ks : list Node) (parts : list jstr) : list jstr :=
    match ks with
    | [] => parts
    | k :: ks' => each ks' (visit k parts)
    end.

(** [node.querySelectorAll(':scope > li').forEach((li, i) => ...)] *)
Definition listItems (visit : Node -> list jstr -> list jstr) (ordered : bool) :=
  fix items (ks : list Node) (i : nat) (parts : list jstr) : list jstr :=
    match ks with
    | [] => parts
    | k :: ks' =>
        if selects (ByTag (js "li")) k then
          let prefix := if ordered then decimal (N.of_nat (i + 1)) ++ js ". "
                        else js "- " in
          items ks' (S i) (visit k (parts ++ [prefix]) ++ [[LF]])
        else items ks' i parts
    end.

(** The [li] children of a list, in order. *)
Definition liChildren (ks : list Node) : list Node :=
  List.filter (selects (ByTag (js "li"))) ks.

(** The marker in front of the item numbered [i] from 0. *)
Definition itemPrefix (ordered : bool) (i : nat) : jstr :=
  if ordered then decimal (N.of_nat (i + 1)) ++ js ". " else js "- ".

(** The element is one that [processNode] skips with its subtree: a
    screen-reader label or the injected interface. *)
Definition skipped (n : Node) : bool :=
  (tagIn [js "span"] (tagOf n) && hasClass (js "screen-reader-only") n)
  || jstr_eqb (idOf n) (js "gce-root") || jstr_eqb (idOf n) (js "gce-toast").

(** A visit that only appends to the parts it is given. *)
Definition appends (visit : Node -> list jstr -> list jstr) (k : Node) : Prop :=
  forall parts, visit k parts = parts ++ visit k [].

End Walk.

(* ===================================================================== *)
(** ** The chat title (content.js, getChatTitle) *)
(* ===================================================================== *)

Module Title.

Local Open Scope N_scope.

(** The class [[-–|]]. *)
Definition isSeparator (c : N) : bool := (c =? 45) || (c =? 8211) || (c =? 124).

(** The characters that [.] does not match. *)
Definition isLineTerminator (c : N) : bool :=
  (c =? 10) || (c =? 13) || (c =? 8232) || (c =? 8233).

(** Matching a letter of the pattern under the flag [i] without [u]: both
    sides are upper-cased, and a character above 127 never folds to an
    ASCII letter. *)
Definition foldCase (c : N) : N := if (97 <=? c) && (c <=? 122) then c - 32 else c.

(** A literal word of the pattern at the start of [s]; what follows it. *)
Fixpoint afterWord (word s : jstr) : option jstr :=
  match word, s with
  | [], _ => Some s
  | a :: word', b :: s' => if foldCase a =? foldCase b then afterWord word' s' else None
  | _ :: _, [] => None
  end.

(** [\s*]: the pattern always takes all the white space there is, as the
    next thing it wants is a letter. *)
Definition afterSpaces (s : jstr) : jstr := dropWhile isWhiteSpace s.

(** [.*]: up to the end of the line. *)
Definition afterLine (s : jstr) : jstr :=
  dropWhile (fun c => negb (isLineTerminator c)) s.

(** [\s*w1\s*w2 ... .*] at the start of [s]; what follows the match. *)
Fixpoint afterWords (words : list jstr) (s : jstr) : option jstr :=
  match words with
  | [] => Some (afterLine s)
  | w :: words' =>
      match afterWord w (afterSpaces s) with
      | Some rest => afterWords words' rest
      | None => None
      end
  end.

(** The whole pattern at the start of [s]. *)
Definition brandAt (words : list jstr) (s : jstr) : option jstr :=
  match s with
  | c :: t => if isSeparator c then afterWords words t else None
  | [] => None
  end.

(** [s.replace(/[-–|]\s*w1\s*w2.*/i, '')]: the leftmost match goes. *)
Fixpoint removeBrand (words : list jstr) (s : jstr) : jstr :=
  match s with
  | [] => []
  | c :: t =>
      match brandAt words s with
      | Some rest => rest
      | None => c :: removeBrand words t
      end
  end.

Definition untitled : jstr := js "Untitled Chat".

Section WithCaseMapping.

(** [String.prototype.toLowerCase]. *)
Variable toLowerCase : jstr -> jstr.

(** content.js, [getChatTitle], on the value of [document.title]. *)
Definition getChatTitle (documentTitle : jstr) : jstr :=
  let c := trim (removeBrand [js "Gemini"]
                   (removeBrand [js "Google"; js "Gemini"] documentTitle)) in
  match c with
  | [] => untitled
  | _ => if jstr_eqb (toLowerCase c) (js "gemini") then untitled else c
  end.

End WithCaseMapping.

(** A title with the usual ending: a name without separator, a separator,
    the two words of the brand in any case with white space around them as
    the pattern allows, and the rest of the line. *)
Record Branded := mkBranded {
  name : jstr;
  separator : N;
  gap1 : jstr;
  google : jstr;
  gap2 : jstr;
  gemini : jstr;
  tail : jstr
}.

Definition brandedTitle (b : Branded) : jstr :=
  name b ++ [separator b] ++ gap1 b ++ google b ++ gap2 b ++ gemini b ++ tail b.

Definition wellBranded (b : Branded) : Prop :=
  Forall (fun c => isSeparator c = false) (name b)
  /\ isSeparator (separator b) = true
  /\ Forall (fun c => isWhiteSpace c = true) (gap1 b)
  /\ map foldCase (google b) = map foldCase (js "Google")
  /\ Forall (fun c => isWhiteSpace c = true) (gap2 b)
  /\ map foldCase (gemini b) = map foldCase (js "Gemini")
  /\ Forall (fun c => isLineTerminator c = false) (tail b).

End Title.

(* ===================================================================== *)
(** ** The Deep Research report (content.js) *)
(* ===================================================================== *)

Module ReportPanel.

Import Dom Render.

(** An element together with the tags of its ancestors, nearest first:
    enough for the selectors used here, one of which looks at ancestors. *)
Record Located := mkLocated {
  ancestors : list jstr;
  element : Node
}.

(** An element followed by its element descendants, in document order. *)
Fixpoint locate (above : list jstr) (n : Node) : list Located :=
  match n with
  | Element t _ ks => mkLocated above n :: flat_map (locate (t :: above)) ks
  | _ => []
  end.

Definition below (l : Located) : list Located :=
  match element l with
  | Element t _ ks => flat_map (locate (t :: ancestors l)) ks
  | _ => []
  end.

(** [el.querySelector(...)] for a selector given as a test. *)
Definition query (test : Located -> bool) (l : Located) : option Located :=
  head (List.filter test (below l)).

Definition documentQuery (test : Located -> bool) (doc : Node) : option Located :=
  head (List.filter test (locate [] doc)).

(** The element as [extractFormattedText] takes it. *)
Definition toHandle (l : Located) : Handle :=
  mkHandle (existsb isPreTag (ancestors l)) (element l).

(** [s] holds [needle] somewhere. *)
Fixpoint isInfix (needle s : jstr) : bool :=
  match stripPrefix needle s with
  | Some _ => true
  | None => match s with [] => false | _ :: t => isInfix needle t end
  end.

Definition hasTag (t : string) (l : Located) : bool := selects (ByTag (js t)) (element l).
Definition hasClassName (c : string) (l : Located) : bool :=
  selects (ByClass (js c)) (element l).

(** [[class*=title]] *)
Definition classContains (part : string) (l : Located) : bool :=
  isElement (element l) &&
  match getAttribute (js "class") (element l) with
  | Some v => isInfix (js part) v
  | None => false
  end.

(** [toolbar, .toolbar] *)
Definition isToolbar (l : Located) : bool := hasTag "toolbar" l || hasClassName "toolbar" l.
(** [h1, h2, .title, [class*=title]] *)
Definition isTitleLike (l : Located) : bool :=
  hasTag "h1" l || hasTag "h2" l || hasClassName "title" l || classContains "title" l.
(** [h1, h2] *)
Definition isHeading (l : Located) : bool := hasTag "h1" l || hasTag "h2" l.
(** [response-container message-content] *)
Definition isMessageContentInResponse (l : Located) : bool :=
  hasTag "message-content" l && existsb (jstr_eqb (js "response-container")) (ancestors l).

(** [t && t.length > 3 && t.length < 200] *)
Definition isTitle (t : jstr) : bool :=
  negb (Nat.eqb (length t) 0) && Nat.ltb 3 (length t) && Nat.ltb (length t) 200.

(** The trimmed text of a found element when it can be a title. *)
Definition titleIn (found : option Located) : option jstr :=
  match found with
  | Some titleEl =>
      let t := trim (textContent (element titleEl)) in
      if isTitle t then Some t else None
  | None => None
  end.

Definition defaultTitle : jstr := js "Deep Research Report".

(** content.js, [getReportTitle]. *)
Definition getReportTitle (drPanel : Located) : jstr :=
  let fromToolbar :=
    match query isToolbar drPanel with
    | Some toolbar => titleIn (query isTitleLike toolbar)
    | None => None
    end in
  match fromToolbar with
  | Some t => t
  | None =>
      match titleIn (query isHeading drPanel) with
      | Some t => t
      | None =>
          match trim (textContent (element drPanel)) with
          | [] => defaultTitle
          | text =>
              let firstLine := trim (hd [] (splitOn LF text)) in
              orString (Some (substring0 80 firstLine)) defaultTitle
          end
      end
  end.

(** content.js, [extractDeepResearchReport]; [None] is [null].  No
    operation of the model throws, so the [try]/[catch] is not
    represented. *)
Definition extractDeepResearchReport (doc : Node) : option Report :=
  match documentQuery (hasTag "deep-research-immersive-panel") doc with
  | None => None
  | Some drPanel =>
      match query (hasClassName "container") drPanel with
      | None => None
      | Some container =>
          let messageContent :=
            orElse (query (hasTag "message-content") container)
              (orElse (query isMessageContentInResponse container)
                 (query (hasTag "response-container") container)) in
          match messageContent with
          | None =>
              let text := extractFormattedText (Some (toHandle container)) in
              if negb (Nat.eqb (length text) 0) && Nat.ltb 100 (length text)
              then Some (mkReport (getReportTitle drPanel) text)
              else None
          | Some found =>
              let text := extractFormattedText (Some (toHandle found)) in
              if Nat.eqb (length text) 0 || Nat.ltb (length text) 50 then None
              else Some (mkReport (getReportTitle drPanel) text)
          end
      end
  end.

End ReportPanel.

(* ===================================================================== *)
(** ** Sample titles *)
(* ===================================================================== *)

Module TitleSamples.

(** [Trip plan - Google Gemini] *)
Definition tripTitle : Title.Branded :=
  Title.mkBranded (js "Trip plan ") 45 (js " ") (js "Google") (js " ") (js "Gemini") [].

End TitleSamples.

(* ===================================================================== *)
(** ** A sample report page *)
(* ===================================================================== *)

Module ReportSamples.

Import Dom Samples.

Definition findings : jstr :=
  js "Findings: the survey covers forty sources and weighs each one in turn.".

Definition reportPage : Node :=
  el "html" ""
    [el "body" ""
       [el "deep-research-immersive-panel" ""
          [el "div" "toolbar" [el "span" "report-title" [Text (js "Survey of sources")]];
           el "div" "container" [el "message-content" "" [el "p" "" [Text findings]]]]]].

Definition surveyReport : Report := mkReport (js "Survey of sources") findings.

End ReportSamples.

(* ===================================================================== *)
(** ** The icon files (generate-icons.js) *)
(* ===================================================================== *)

Module Png.

Local Open Scope Z_scope.

(** JavaScript's integer conversions and the bit operators of the
    checksum, on numbers that are integers. *)
Definition toUint32 (z : Z) : Z := z mod 2 ^ 32.
Definition toInt32 (z : Z) : Z :=
  let u := z mod 2 ^ 32 in if u <? 2 ^ 31 then u else u - 2 ^ 32.
(** [a ^ b], [a & b] and [a >>> n] for a shift count below 32. *)
Definition jsXor (a b : Z) : Z := Z.lxor (toInt32 a) (toInt32 b).
Definition jsAnd (a b : Z) : Z := Z.land (toInt32 a) (toInt32 b).
Definition jsShru (a n : Z) : Z := Z.shiftr (toUint32 a) n.

(** A [Buffer] is a list of bytes.  Storing a number keeps its low eight
    bits. *)
Definition byteZ (b : Byte.byte) : Z := Z.of_N (Byte.to_N b).
Definition ofZ (z : Z) : Byte.byte :=
  match Byte.of_N (Z.to_N (z mod 256)) with
  | Some b => b
  | None => Byte.x00
  end.

#[global] Instance byte_eq_dec : EqDecision Byte.byte := Byte.byte_eq_dec.

(** [Buffer.from(type, 'ascii')] *)
Definition bytesOf (s : string) : list Byte.byte :=
  map byte_of_ascii (list_ascii_of_string s).

(** The body of the loop that fills [crcTable]. *)
Definition tableStep (c : Z) : Z :=
  if negb (jsAnd c 1 =? 0) then jsXor 0xedb88320 (jsShru c 1) else jsShru c 1.

(** The same step on a register held as an unsigned number of 32 bits. *)
Definition shiftStep (u : Z) : Z :=
  Z.lxor (Z.shiftr u 1) (if Z.testbit u 0 then 0xedb88320 else 0).

(** [crcTable[n]]; the table is a [Uint32Array]. *)
Definition crcTableAt (n : nat) : Z := toUint32 (Nat.iter 8 tableStep (Z.of_nat n)).
Definition crcTable : list Z := map crcTableAt (seq 0 256).

(** The body of the loop of [crc32].  The index is below 256, so the
    default of [nth] is never taken. *)
Definition crcRound (crc : Z) (b : Byte.byte) : Z :=
  jsXor (jsShru crc 8) (nth (Z.to_nat (jsAnd (jsXor crc (byteZ b)) 0xff)) crcTable 0).

(** generate-icons.js, [crc32]. *)
Definition crc32 (buf : list Byte.byte) : Z :=
  jsShru (jsXor (fold_left crcRound buf 0xffffffff) 0xffffffff) 0.

(** [Buffer.alloc(4)] followed by [writeUInt32BE(value, 0)], which raises
    a [RangeError] for a value outside of 0 .. 2^32 - 1; [None] is the
    exception. *)
Definition writeUInt32BE (value : Z) : option (list Byte.byte) :=
  if (0 <=? value) && (value <=? 0xffffffff)
  then Some [ofZ (value / 2 ^ 24); ofZ (value / 2 ^ 16); ofZ (value / 2 ^ 8); ofZ value]
  else None.

(** generate-icons.js, [makeChunk]. *)
Definition makeChunk (type : string) (data : list Byte.byte) : option (list Byte.byte) :=
  match writeUInt32BE (Z.of_nat (length data)) with
  | Some length =>
      let typeBuffer := bytesOf type in
      let crcData := typeBuffer ++ data in
      match writeUInt32BE (crc32 crcData) with
      | Some crc => Some (length ++ typeBuffer ++ data ++ crc)
      | None => None
      end
  | None => None
  end.

Definition signature : list Byte.byte :=
  map ofZ [137; 80; 78; 71; 13; 10; 26; 10].

(** One pass of the row loop of [encodePNG]: the filter byte and what
    [pixels.copy] moves, the rest of the row staying zero.  [copy] raises
    when [sourceStart] lies beyond the source. *)
Definition row (pixels : list Byte.byte) (width y : nat) : option (list Byte.byte) :=
  if Nat.ltb (length pixels) (y * width * 4) then None
  else
    let moved := take (width * 4)%nat (drop (y * width * 4)%nat pixels) in
    Some (Byte.x00 :: moved ++ repeat Byte.x00 (width * 4 - length moved)).

Fixpoint rows (pixels : list Byte.byte) (width : nat) (ys : list nat)
  : option (list Byte.byte) :=
  match ys with
  | [] => Some []
  | y :: ys' =>
      match row pixels width y with
      | Some r =>
          match rows pixels width ys' with
          | Some rest => Some (r ++ rest)
          | None => None
          end
      | None => None
      end
  end.

(** [rawData] after the row loop. *)
Definition rawData (pixels : list Byte.byte) (width height : nat)
  : option (list Byte.byte) :=
  rows pixels width (seq 0 height).

Section WithZlib.

(** [zlib.deflateSync] *)
Variable deflateSync : list Byte.byte -> list Byte.byte.

(** generate-icons.js, [encodePNG]. *)
Definition encodePNG (pixels : list Byte.byte) (width height : nat)
  : option (list Byte.byte) :=
  match rawData pixels width height with
  | None => None
  | Some raw =>
      let compressed := deflateSync raw in
      match writeUInt32BE (Z.of_nat width), writeUInt32BE (Z.of_nat height) with
      | Some w, Some h =>
          let ihdr := w ++ h ++ map ofZ [8; 6; 0; 0; 0] in
          match makeChunk "IHDR" ihdr, makeChunk "IDAT" compressed, makeChunk "IEND" [] with
          | Some c1, Some c2, Some c3 => Some (signature ++ c1 ++ c2 ++ c3)
          | _, _, _ => None
          end
      | _, _ => None
      end
  end.

End WithZlib.

(** Reading a file back, after the PNG specification: a chunk is a length
    of four bytes, most significant first, a type of four bytes, that many
    bytes of data and the checksum of type and data.  This reader is the
    properties', the sources have none. *)
Definition readUInt32BE (bs : list Byte.byte) : option (Z * list Byte.byte) :=
  match bs with
  | a :: b :: c :: d :: rest =>
      Some (((byteZ a * 256 + byteZ b) * 256 + byteZ c) * 256 + byteZ d, rest)
  | _ => None
  end.

Record Chunk := mkChunk {
  chunkType : list Byte.byte;
  chunkData : list Byte.byte
}.

Definition readChunk (bs : list Byte.byte) : option (Chunk * list Byte.byte) :=
  match readUInt32BE bs with
  | Some (n, afterLength) =>
      let type := take 4 afterLength in
      let data := take (Z.to_nat n) (drop 4 afterLength) in
      if Nat.ltb (length afterLength) (4 + Z.to_nat n) then None
      else
        match readUInt32BE (drop (4 + Z.to_nat n) afterLength) with
        | Some (crc, rest) =>
            if crc =? crc32 (type ++ data) then Some (mkChunk type data, rest) else None
        | None => None
        end
  | None => None
  end.

(** The chunks of a file up to and including [IEND], which has to end
    the file; [fuel] bounds their number. *)
Fixpoint readChunks (fuel : nat) (bs : list Byte.byte) : option (list Chunk) :=
  match fuel with
  | O => None
  | S fuel' =>
      match readChunk bs with
      | Some (c, rest) =>
          if bool_decide (chunkType c = bytesOf "IEND")
          then (if bool_decide (rest = []) then Some [c] else None)
          else
            match readChunks fuel' rest with
            | Some cs => Some (c :: cs)
            | None => None
            end
      | None => None
      end
  end.

Definition readPNG (file : list Byte.byte) : option (list Chunk) :=
  if bool_decide (take 8 file = signature) then readChunks (length file) (drop 8 file) else None.

End Png.

(* ===================================================================== *)
(** ** String primitives *)
(* ===================================================================== *)

Section StringFacts.


Lemma indexOfFrom_spec (c : N) (s : jstr) (i : Z) :
  (0 <= i)%Z ->
  ((c ∉ s) /\ indexOfFrom i c s = (-1)%Z) \/ ((c ∈ s) /\ (i <= indexOfFrom i c s)%Z).
Proof.
  revert i. induction s as [|d t IH]; intros i Hi; simpl.
  - left. split; [apply not_elem_of_nil | reflexivity].
  - destruct (N.eqb_spec d c) as [->|Hne].
    + right. split; [left | lia].
    + destruct (IH (i + 1)%Z ltac:(lia)) as [[Hn He]|[Hy Hl]].
      * left. split; [|exact He]. rewrite not_elem_of_cons. split; [congruence | exact Hn].
      * right. split; [right; exact Hy | lia].
Qed.

Lemma indexOf_found (c : N) (s : jstr) :
  negb (indexOf c s =? -1)%Z = true <-> c ∈ s.
Proof.
  unfold indexOf. destruct (indexOfFrom_spec c s 0%Z ltac:(lia)) as [[Hn He]|[Hy Hl]].
  - rewrite He. simpl. split; [discriminate | intros H; contradiction].
  - split; [intros _; exact Hy | intros _].
    apply negb_true_iff, Z.eqb_neq. lia.
Qed.

Lemma includes_found (c : N) (s : jstr) : includes c s = true <-> c ∈ s.
Proof.
  unfold includes. rewrite existsb_exists. split.
  - intros (x & Hin & Heq). apply N.eqb_eq in Heq. subst. by apply list_elem_of_In.
  - intros H. exists c. split; [by apply list_elem_of_In | apply N.eqb_refl].
Qed.

End StringFacts.

(* ===================================================================== *)
(** ** CSV fields *)
(* ===================================================================== *)

Section CsvFacts.

Import Csv.
Local Open Scope N_scope.

Lemma escapeCSV_quotes (s : jstr) :
  needsQuoting s -> escapeCSV (VString s) = quoted s.
Proof.
  unfold needsQuoting, escapeCSV. simpl. rewrite <- !indexOf_found.
  intros H. destruct_or!; rewrite H; rewrite ?orb_true_r; reflexivity.
Qed.

Lemma escapeCSV_bare (s : jstr) :
  ~ needsQuoting s -> escapeCSV (VString s) = s.
Proof.
  unfold needsQuoting, escapeCSV. simpl. rewrite <- !indexOf_found. intros H.
  destruct (negb (indexOf dquote s =? -1)%Z); [tauto|].
  destruct (negb (indexOf comma s =? -1)%Z); [tauto|].
  destruct (negb (indexOf LF s =? -1)%Z); [tauto|].
  destruct (negb (indexOf CR s =? -1)%Z); [tauto|]. reflexivity.
Qed.

Lemma esc_quotes (s : jstr) :
  (dquote ∈ s) \/ (comma ∈ s) \/ (LF ∈ s) -> esc (VString s) = quoted s.
Proof.
  unfold esc. simpl. rewrite <- !includes_found.
  intros H. destruct_or!; rewrite H; rewrite ?orb_true_r; reflexivity.
Qed.

Lemma esc_bare (s : jstr) :
  ~ ((dquote ∈ s) \/ (comma ∈ s) \/ (LF ∈ s)) -> esc (VString s) = s.
Proof.
  unfold esc. simpl. rewrite <- !includes_found. intros H.
  destruct (includes dquote s); [tauto|].
  destruct (includes comma s); [tauto|].
  destruct (includes LF s); [tauto|]. reflexivity.
Qed.

Lemma collapse_doubled (s : jstr) : collapseQuotes (doubleQuotes s) = s.
Proof.
  unfold doubleQuotes, replaceChar.
  induction s as [|c t IH]; [reflexivity|].
  cbn [flat_map]. destruct (N.eqb_spec c dquote) as [->|Hne].
  - cbn [app collapseQuotes]. rewrite N.eqb_refl. cbn. by rewrite IH.
  - cbn [app]. cbn [collapseQuotes].
    destruct (flat_map _ t) as [|c' t'] eqn:Hf.
    + cbn in IH. by rewrite <- IH.
    + assert ((c =? dquote) = false) as -> by by apply N.eqb_neq.
      cbn [andb]. by rewrite IH.
Qed.

Lemma decode_quoted (s : jstr) : decodeField (quoted s) = s.
Proof.
  unfold quoted. cbn [app decodeField]. rewrite N.eqb_refl.
  rewrite last_snoc, bool_decide_eq_true_2 by reflexivity. cbn.
  rewrite removelast_last. apply collapse_doubled.
Qed.

Lemma decode_bare (s : jstr) : dquote ∉ s -> decodeField s = s.
Proof.
  destruct s as [|c t]; [reflexivity|]. intros H. cbn.
  destruct (N.eqb_spec c dquote) as [->|_]; [|reflexivity].
  exfalso. apply H. left.
Qed.

Lemma decode_escapeCSV (s : jstr) : decodeField (escapeCSV (VString s)) = s.
Proof.
  destruct (decide (dquote ∈ s)) as [Hq|Hq].
  - rewrite escapeCSV_quotes by (left; exact Hq). apply decode_quoted.
  - destruct (decide ((comma ∈ s) \/ (LF ∈ s) \/ (CR ∈ s))) as [Ho|Ho].
    + rewrite escapeCSV_quotes by (right; exact Ho). apply decode_quoted.
    + rewrite escapeCSV_bare by (unfold needsQuoting; tauto). by apply decode_bare.
Qed.

Lemma decode_esc (s : jstr) : decodeField (esc (VString s)) = s.
Proof.
  destruct (decide (dquote ∈ s)) as [Hq|Hq].
  - rewrite esc_quotes by (left; exact Hq). apply decode_quoted.
  - destruct (decide ((comma ∈ s) \/ (LF ∈ s))) as [Ho|Ho].
    + rewrite esc_quotes by (right; exact Ho). apply decode_quoted.
    + rewrite esc_bare by tauto. by apply decode_bare.
Qed.

End CsvFacts.

(* ===================================================================== *)
(** ** Deduplication *)
(* ===================================================================== *)

Section DedupFacts.

Import Dedup.

Implicit Types (seen : gset jstr) (msgs : list Message) (m : Message).

(** Two conditionals that differ in their tests only. *)
Ltac same_condition :=
  match goal with
  | |- (if bool_decide ?P then _ else _) = (if bool_decide ?Q then _ else _) =>
      rewrite (bool_decide_ext P Q); [reflexivity|]
  end.

Lemma filterSeen_snoc msgs : forall seen m,
  filterSeen seen (msgs ++ [m]) =
  filterSeen seen msgs ++
    (if bool_decide (fingerprint m ∈ seen \/ fingerprint m ∈ fingerprint <$> msgs)
     then [] else [m]).
Proof.
  induction msgs as [|x rest IH]; intros seen m; cbn [app filterSeen].
  - case_bool_decide as Hin.
    + rewrite bool_decide_eq_true_2; [reflexivity | by left].
    + rewrite bool_decide_eq_false_2; [reflexivity |].
      cbn. rewrite elem_of_nil. tauto.
  - case_bool_decide as Hx; rewrite IH; cbn [app]; do 2 f_equal.
    + same_condition. rewrite fmap_cons, elem_of_cons.
      split; [tauto|]. intros [H|[H|H]]; [tauto | rewrite H; tauto | tauto].
    + same_condition.
      rewrite fmap_cons, elem_of_cons, elem_of_union, elem_of_singleton. tauto.
Qed.

Lemma filterSeen_length msgs : forall seen,
  length (filterSeen seen msgs) <= length msgs.
Proof.
  induction msgs as [|x rest IH]; intros seen; cbn [filterSeen length]; [lia|].
  case_bool_decide; [specialize (IH seen) | specialize (IH ({[fingerprint x]} ∪ seen))];
    cbn [length]; lia.
Qed.

Lemma filterSeen_unseen msgs : forall seen m,
  m ∈ filterSeen seen msgs -> fingerprint m ∉ seen.
Proof.
  induction msgs as [|x rest IH]; intros seen m; cbn [filterSeen].
  - by rewrite elem_of_nil.
  - case_bool_decide as Hx; [apply IH|].
    rewrite elem_of_cons. intros [->|Hin]; [exact Hx|].
    apply IH in Hin. set_solver.
Qed.

Lemma filterSeen_NoDup msgs : forall seen,
  NoDup (fingerprint <$> filterSeen seen msgs).
Proof.
  induction msgs as [|x rest IH]; intros seen; cbn [filterSeen].
  - constructor.
  - case_bool_decide as Hx; [apply IH|].
    rewrite fmap_cons. constructor; [|apply IH].
    rewrite list_elem_of_fmap. intros (m & Heq & Hin).
    apply filterSeen_unseen in Hin. set_solver.
Qed.

Lemma filterSeen_fixed msgs : forall seen,
  NoDup (fingerprint <$> msgs) ->
  (forall m, m ∈ msgs -> fingerprint m ∉ seen) ->
  filterSeen seen msgs = msgs.
Proof.
  induction msgs as [|x rest IH]; intros seen Hnd Hfresh; cbn [filterSeen]; [reflexivity|].
  rewrite fmap_cons in Hnd. apply NoDup_cons in Hnd as [Hx Hnd].
  rewrite bool_decide_eq_false_2 by (apply Hfresh; left).
  f_equal. apply IH; [exact Hnd|].
  intros m Hm. rewrite elem_of_union, elem_of_singleton. intros [Heq|Hs].
  - apply Hx. rewrite <- Heq. by apply list_elem_of_fmap_2.
  - by apply (Hfresh m); [right|].
Qed.

End DedupFacts.

(* ===================================================================== *)
(** ** The convergence loop *)
(* ===================================================================== *)

Section ConvergerFacts.

Import Converger.

Variable probe : Probe.

Lemma compare_equal (count : nat) (c : Counters) :
  count = lastCount c ->
  compare count c =
  (if Nat.leb STABLE_THRESHOLD (S (stable c)) then Break else Continue)
    (mkCounters (S (stable c)) (lastCount c)).
Proof.
  intros ->. unfold compare. rewrite Nat.eqb_refl.
  by destruct (Nat.leb STABLE_THRESHOLD (S (stable c))).
Qed.

Lemma compare_changed (count : nat) (c : Counters) :
  count <> lastCount c -> compare count c = Continue (mkCounters 0 count).
Proof.
  intros H. unfold compare. by apply Nat.eqb_neq in H as ->.
Qed.

(** The loop variable [lastCount] always holds the latest measurement. *)
Lemma compare_tracks (count : nat) (c c' : Counters) :
  compare count c = Continue c' \/ compare count c = Break c' ->
  lastCount c' = count.
Proof.
  unfold compare. destruct (Nat.eqb_spec count (lastCount c)) as [->|_].
  - destruct (Nat.leb _ _); intros [[=<-]|[=<-]]; reflexivity.
  - intros [[=<-]|[=]]. reflexivity.
Qed.

Lemma loop_attempts_bound (remaining : nat) : forall i c tr,
  i <= attempts (loop probe remaining i c tr) <= i + remaining.
Proof.
  induction remaining as [|r IH]; intros i c tr; cbn [loop attempts]; [lia|].
  destruct (compare _ c); cbn [attempts]; [lia|].
  specialize (IH (S i) c0 (tr ++ iterationEvents (probe (S i)))). lia.
Qed.

Lemma perturbations_app (tr tr' : list Event) :
  perturbations (tr ++ tr') = perturbations tr + perturbations tr'.
Proof. unfold perturbations. by rewrite List.filter_app, length_app. Qed.

Lemma loop_perturbations (remaining : nat) : forall i c tr,
  perturbations (trace (loop probe remaining i c tr)) + i =
  perturbations tr + attempts (loop probe remaining i c tr).
Proof.
  induction remaining as [|r IH]; intros i c tr; cbn [loop attempts trace]; [lia|].
  destruct (compare _ c); cbn [attempts trace].
  - rewrite perturbations_app. cbn. lia.
  - specialize (IH (S i) c0 (tr ++ iterationEvents (probe (S i)))).
    rewrite perturbations_app in IH. cbn in IH. lia.
Qed.

(** The loop leaves through [break] exactly when the counter reaches the
    threshold, and through its bound otherwise. *)
Lemma loop_exit (remaining : nat) : forall i c tr,
  stable c < STABLE_THRESHOLD ->
  let r := loop probe remaining i c tr in
  (exit r = Stable /\ stable (final r) = STABLE_THRESHOLD) \/
  (exit r = Exhausted /\ stable (final r) < STABLE_THRESHOLD
   /\ attempts r = i + remaining).
Proof.
  induction remaining as [|r IH]; intros i c tr Hc; cbn [loop].
  - right. cbn. split_and!; [reflexivity | exact Hc | lia].
  - unfold compare. destruct (Nat.eqb _ _).
    + destruct (Nat.leb_spec STABLE_THRESHOLD (S (stable c))) as [Hge|Hlt].
      * left. cbn. split; [reflexivity | lia].
      * destruct (IH (S i) (mkCounters (S (stable c)) (lastCount c))
                    (tr ++ iterationEvents (probe (S i))) Hlt) as [H|(H1 & H2 & H3)];
          [left; exact H | right; split_and!; [done | done | lia]].
    + destruct (IH (S i) (mkCounters 0 (probe (S i)))
                  (tr ++ iterationEvents (probe (S i))) ltac:(cbv; lia))
        as [H|(H1 & H2 & H3)];
        [left; exact H | right; split_and!; [done | done | lia]].
Qed.

Variable k : nat.
Hypothesis settled : stopsGrowingAfter k probe.

(** Once the count has settled, every probe is a stable round. *)
Lemma loop_settled (remaining : nat) : forall i c tr,
  k <= i -> lastCount c = probe i ->
  stable c < STABLE_THRESHOLD ->
  STABLE_THRESHOLD - stable c <= remaining ->
  let r := loop probe remaining i c tr in
  exit r = Stable /\ attempts r = i + (STABLE_THRESHOLD - stable c).
Proof.
  induction remaining as [|r IH]; intros i c tr Hk Hlast Hc Hrem; cbn [loop];
    unfold STABLE_THRESHOLD in *.
  - lia.
  - rewrite compare_equal
      by (rewrite Hlast, (settled (S i)), (settled i) by lia; reflexivity).
    unfold STABLE_THRESHOLD.
    destruct (Nat.leb_spec 3 (S (stable c))) as [Hge|Hlt].
    + cbn. split; [reflexivity | lia].
    + destruct (IH (S i) (mkCounters (S (stable c)) (lastCount c))
                  (tr ++ iterationEvents (probe (S i)))) as [He Ha]; cbn; try lia.
      * rewrite Hlast, (settled (S i)), (settled i) by lia; reflexivity.
      * cbn in He, Ha. split; [exact He | lia].
Qed.

Lemma loop_reaches_stable (remaining : nat) : forall i c tr,
  lastCount c = probe i ->
  stable c < STABLE_THRESHOLD ->
  (k - i) + STABLE_THRESHOLD <= remaining ->
  let r := loop probe remaining i c tr in
  exit r = Stable /\ attempts r <= Nat.max i k + STABLE_THRESHOLD.
Proof.
  induction remaining as [|r IH]; intros i c tr Hlast Hc Hrem;
    unfold STABLE_THRESHOLD in *.
  - lia.
  - destruct (Nat.le_gt_cases k i) as [Hki|Hik].
    + destruct (loop_settled (S r) i c tr Hki Hlast Hc
                  ltac:(unfold STABLE_THRESHOLD; lia)) as [He Ha].
      unfold STABLE_THRESHOLD in Ha. split; [exact He | lia].
    + cbn [loop]. destruct (compare (probe (S i)) c) as [c'|c'] eqn:Hcmp.
      * cbn. split; [reflexivity | lia].
      * assert (lastCount c' = probe (S i)) as Hlast'
          by (apply (compare_tracks _ c); by left).
        assert (stable c' < 3) as Hc'.
        { revert Hcmp. unfold compare. destruct (Nat.eqb _ _).
          - unfold STABLE_THRESHOLD.
            destruct (Nat.leb_spec 3 (S (stable c))); [discriminate|].
            intros [=<-]. exact H.
          - intros [=<-]. cbv; lia. }
        destruct (IH (S i) c' (tr ++ iterationEvents (probe (S i))) Hlast' Hc'
                    ltac:(lia)) as [He Ha].
        split; [exact He | lia].
Qed.

End ConvergerFacts.

(* ===================================================================== *)
(** ** Lines of a text *)
(* ===================================================================== *)

Section LineFacts.

Variable sep : N.

Lemma splitOn_cons (s : jstr) : exists p ps, splitOn sep s = p :: ps.
Proof.
  destruct s as [|d t]; cbn; [by eexists _, _|].
  destruct (N.eqb d sep); [by eexists _, _|].
  destruct (splitOn sep t); by eexists _, _.
Qed.

Lemma splitOn_app_sep (a b : jstr) :
  splitOn sep (a ++ sep :: b) = splitOn sep a ++ splitOn sep b.
Proof.
  induction a as [|d t IH]; cbn [app splitOn].
  - by rewrite N.eqb_refl.
  - destruct (N.eqb d sep); rewrite IH; [reflexivity|].
    by destruct (splitOn_cons t) as (p & ps & ->).
Qed.

Lemma splitOn_join (parts : list jstr) :
  parts <> [] -> splitOn sep (join [sep] parts) = flat_map (splitOn sep) parts.
Proof.
  induction parts as [|p rest IH]; [done|]. intros _.
  destruct rest as [|q rest].
  - cbn. by rewrite app_nil_r.
  - change (join [sep] (p :: q :: rest)) with (p ++ sep :: join [sep] (q :: rest)).
    rewrite splitOn_app_sep, IH by done. reflexivity.
Qed.

Lemma splitOn_whole (s : jstr) : sep ∉ s -> splitOn sep s = [s].
Proof.
  induction s as [|d t IH]; [reflexivity|].
  rewrite not_elem_of_cons. intros [Hd Ht]. cbn.
  destruct (N.eqb_spec d sep) as [->|_]; [done|]. by rewrite IH.
Qed.

Lemma splitOn_pieces (s p : jstr) : p ∈ splitOn sep s -> sep ∉ p.
Proof.
  revert p. induction s as [|d t IH]; intros p; cbn.
  - rewrite list_elem_of_singleton. intros ->. apply not_elem_of_nil.
  - destruct (N.eqb_spec d sep) as [->|Hne].
    + rewrite elem_of_cons. intros [->|Hin]; [apply not_elem_of_nil | by apply IH].
    + destruct (splitOn_cons t) as (q & qs & Hq). rewrite Hq in IH |- *.
      rewrite elem_of_cons. intros [->|Hin].
      * rewrite not_elem_of_cons. split; [congruence | apply IH; left].
      * apply IH. by right.
Qed.

End LineFacts.

Lemma elem_of_flat_map {A B} (f : A -> list B) (l : list A) (y : B) :
  y ∈ flat_map f l <-> exists x, x ∈ l /\ y ∈ f x.
Proof.
  rewrite list_elem_of_In, in_flat_map. setoid_rewrite list_elem_of_In. reflexivity.
Qed.

Section TrimFacts.

Lemma dropWhile_all (p : N -> bool) (s : jstr) :
  Forall (fun c => p c = true) s -> dropWhile p s = [].
Proof. induction 1 as [|c t Hc _ IH]; cbn; [reflexivity | by rewrite Hc]. Qed.

Lemma trim_blank (s : jstr) :
  Forall (fun c => isWhiteSpace c = true) s -> trim s = [].
Proof.
  intros H. unfold trim, trimStart, trimEnd.
  by rewrite (dropWhile_all _ s H).
Qed.

End TrimFacts.

(* ===================================================================== *)
(** ** Assembling the transcript *)
(* ===================================================================== *)

Section AssembleFacts.

Import Dom Render Assemble.

Lemma pushIfText_app (r : Role) (text : jstr) (msgs : list Message) :
  pushIfText r text msgs = msgs ++ pushIfText r text [].
Proof. destruct text; cbn; [by rewrite app_nil_r | reflexivity]. Qed.

Lemma pushIfText_alone (r : Role) (text : jstr) (m : Message) :
  m ∈ pushIfText r text [] -> role m = r /\ content m = text /\ text <> [].
Proof.
  destruct text as [|c t]; cbn.
  - by rewrite elem_of_nil.
  - rewrite list_elem_of_singleton. by intros ->.
Qed.

(** What one container adds to the transcript. *)
Lemma extractContainer_app (msgs : list Message) (container : Handle) :
  extractContainer msgs container = msgs ++ extractContainer [] container.
Proof.
  unfold extractContainer.
  destruct (querySelector (ByTag (js "user-query")) container) as [uq|];
    destruct (querySelector (ByTag (js "model-response")) container) as [mr|];
    cbn [app];
    repeat (rewrite (pushIfText_app _ _ (_ ++ _)) || rewrite (pushIfText_app _ _ msgs));
    rewrite ?(pushIfText_app assistant _ (pushIfText _ _ [])), ?app_assoc, ?app_nil_r;
    reflexivity.
Qed.

Lemma extractContainer_hasText (container : Handle) (m : Message) :
  m ∈ extractContainer [] container -> content m <> [].
Proof.
  unfold extractContainer.
  destruct (querySelector (ByTag (js "user-query")) container) as [uq|];
    destruct (querySelector (ByTag (js "model-response")) container) as [mr|];
    rewrite ?(pushIfText_app assistant _ (pushIfText _ _ [])), ?elem_of_app, ?elem_of_nil;
    intros H; destruct_or?; try done;
    apply pushIfText_alone in H as (_ & -> & H); exact H.
Qed.

Lemma fold_extractContainer (containers : list Handle) : forall msgs m,
  m ∈ fold_left extractContainer containers msgs ->
  m ∈ msgs \/ exists c, c ∈ containers /\ m ∈ extractContainer [] c.
Proof.
  induction containers as [|c rest IH]; intros msgs m; cbn [fold_left].
  - by left.
  - intros H. apply IH in H as [H|(c' & Hc' & H)].
    + rewrite extractContainer_app, elem_of_app in H. destruct H as [H|H]; [by left|].
      right. exists c. split; [left | exact H].
    + right. exists c'. split; [by right | exact H].
Qed.

Lemma extractCurrentMessages_hasText (doc : Node) (m : Message) :
  m ∈ extractCurrentMessages doc -> content m <> [].
Proof.
  unfold extractCurrentMessages.
  destruct (documentQuerySelector scrollerSelector doc) as [scroller|];
    [|by rewrite elem_of_nil].
  intros H. apply fold_extractContainer in H as [H|(c & _ & H)].
  - by apply elem_of_nil in H.
  - by apply extractContainer_hasText in H.
Qed.

(** A side whose text is empty adds no turn of its role. *)
Lemma extractContainer_no_user (container uq : Handle) (m : Message) :
  querySelector (ByTag (js "user-query")) container = Some uq ->
  extractFormattedText (Some (queryElement uq)) = [] ->
  m ∈ extractContainer [] container -> role m <> user.
Proof.
  unfold extractContainer. intros -> ->. cbn [pushIfText].
  destruct (querySelector (ByTag (js "model-response")) container) as [mr|];
    [|by rewrite elem_of_nil].
  intros H. by apply pushIfText_alone in H as (-> & _).
Qed.

Lemma extractContainer_no_assistant (container mr : Handle) (m : Message) :
  querySelector (ByTag (js "model-response")) container = Some mr ->
  extractFormattedText (Some (responseElement mr)) = [] ->
  m ∈ extractContainer [] container -> role m <> assistant.
Proof.
  unfold extractContainer. intros -> ->. cbn [pushIfText].
  destruct (querySelector (ByTag (js "user-query")) container) as [uq|];
    [|by rewrite elem_of_nil].
  intros H. by apply pushIfText_alone in H as (-> & _).
Qed.

Lemma extractFormattedText_blank (el : Handle) :
  Forall (fun c => isWhiteSpace c = true)
    (concat (processNode (insidePre el) (node el) [])) ->
  extractFormattedText (Some el) = [].
Proof. apply trim_blank. Qed.

End AssembleFacts.

(* ===================================================================== *)
(** ** Export requests *)
(* ===================================================================== *)

Section CoordinatorFacts.

Import Dom Converger Assemble Coordinator.

Variable format : jstr.
Hypothesis unsupported : isSupported format = false.

Lemma unsupported_names :
  jstr_eqb format (js "pdf") = false /\ jstr_eqb format (js "markdown") = false
  /\ jstr_eqb format (js "csv") = false.
Proof.
  revert unsupported. unfold isSupported, supportedFormats. cbn [existsb].
  rewrite !orb_false_iff. tauto.
Qed.

Lemma handleExport_unsupported (data : option ChatData) :
  handleExport format data = inl (js "Unsupported export format: " ++ format).
Proof. unfold handleExport. by rewrite unsupported. Qed.

Lemma exportChat_unsupported (env : Env) (d : ChatData) :
  messages d <> [] ->
  exportChat env (Some d) format = (exportFailed format (unsupportedMessage format), []).
Proof.
  destruct unsupported_names as (Hp & Hm & Hc).
  unfold exportChat. destruct (messages d); [done|]. intros _.
  by rewrite Hp, Hm, Hc.
Qed.

Lemma exportChat_unsupported_rejects (env : Env) (chatData : option ChatData) :
  exists message, exportChat env chatData format = (Rejected message, []).
Proof.
  destruct chatData as [d|]; [|by eexists].
  destruct (decide (messages d = [])) as [He|Hne].
  - unfold exportChat. rewrite He. by eexists.
  - rewrite exportChat_unsupported by done. by eexists.
Qed.

End CoordinatorFacts.

(* ===================================================================== *)
(** ** Markdown output *)
(* ===================================================================== *)

Section MarkdownFacts.

Import Csv Markdown.

Variable now : jstr.

Lemma linesOf_exportMarkdown (data : ChatData) :
  linesOf (exportMarkdown now data) = flat_map (splitOn LF) (exportMarkdownLines now data).
Proof. apply splitOn_join. discriminate. Qed.

Lemma linesOf_exportToMarkdown (chatData : ChatData) :
  linesOf (exportToMarkdown now chatData) =
  flat_map (splitOn LF) (exportToMarkdownLines now chatData).
Proof. apply splitOn_join. discriminate. Qed.

Lemma quoteLine_one_line (l : jstr) : LF ∉ l -> splitOn LF (quoteLine l) = [quoteLine l].
Proof.
  intros H. apply splitOn_whole. unfold quoteLine. cbn.
  rewrite !not_elem_of_cons. split_and!; [done | done | exact H].
Qed.

Lemma messageLines_emitted (m : Message) (l : jstr) :
  l ∈ splitOn LF (content m) ->
  emittedLines m l ∈ flat_map (splitOn LF) (messageLines m).
Proof.
  intros Hl. apply elem_of_flat_map. unfold messageLines, emittedLines.
  destruct (role m).
  - exists (quoteLine l). split.
    + rewrite !elem_of_app. right. left. by apply list_elem_of_fmap_2.
    + rewrite quoteLine_one_line by (by eapply splitOn_pieces). left.
  - exists (content m). split; [|exact Hl].
    rewrite !elem_of_app. right. left. left.
Qed.

Lemma libMessageLines_emitted (m : Message) (l : jstr) :
  l ∈ splitOn LF (content m) ->
  emittedLines m l ∈ flat_map (splitOn LF) (libMessageLines m).
Proof.
  intros Hl. apply elem_of_flat_map. unfold libMessageLines, emittedLines.
  destruct (role m).
  - exists (quoteLine l). split.
    + rewrite !elem_of_app. right. left. by apply list_elem_of_fmap_2.
    + rewrite quoteLine_one_line by (by eapply splitOn_pieces). left.
  - exists (content m). split; [|exact Hl].
    rewrite !elem_of_app. right. left. left.
Qed.

Lemma flat_map_flat_map {A B C} (f : A -> list B) (g : B -> list C) (l : list A) :
  flat_map g (flat_map f l) = flat_map (fun x => flat_map g (f x)) l.
Proof.
  induction l as [|x l IH]; [reflexivity|]. cbn. by rewrite flat_map_app, IH.
Qed.

Lemma exportMarkdown_emits (data : ChatData) (m : Message) (l : jstr) :
  m ∈ messages data -> l ∈ splitOn LF (content m) ->
  emittedLines m l ∈ linesOf (exportMarkdown now data).
Proof.
  intros Hm Hl. rewrite linesOf_exportMarkdown. unfold exportMarkdownLines.
  rewrite !flat_map_app, flat_map_flat_map, !elem_of_app. right. left.
  apply elem_of_flat_map. exists m. split; [exact Hm | by apply messageLines_emitted].
Qed.

Lemma exportToMarkdown_emits (chatData : ChatData) (m : Message) (l : jstr) :
  m ∈ messages chatData -> l ∈ splitOn LF (content m) ->
  emittedLines m l ∈ linesOf (exportToMarkdown now chatData).
Proof.
  intros Hm Hl. rewrite linesOf_exportToMarkdown. unfold exportToMarkdownLines.
  rewrite !flat_map_app, flat_map_flat_map, !elem_of_app. right.
  apply elem_of_flat_map. exists m. split; [exact Hm | by apply libMessageLines_emitted].
Qed.

End MarkdownFacts.

(* ===================================================================== *)
(** ** Language detection *)
(* ===================================================================== *)

Section LanguageFacts.

Import Dom Render.

Variable toLowerCase : jstr -> jstr.

(** The order of the steps in [PopupContent.detectCodeLanguage]. *)
Lemma sibling_chain_class_first (block : Handle) (prev : option Node) (lang : jstr) :
  matchLanguageClass (classesOf block) = Some lang ->
  PopupContent.detectCodeLanguage toLowerCase block prev = lang.
Proof. unfold PopupContent.detectCodeLanguage. by intros ->. Qed.

Lemma sibling_chain_data_second (block : Handle) (prev : option Node) :
  matchLanguageClass (classesOf block) = None ->
  dataLanguage block <> [] ->
  PopupContent.detectCodeLanguage toLowerCase block prev = dataLanguage block.
Proof.
  unfold PopupContent.detectCodeLanguage. intros -> H. by destruct (dataLanguage block).
Qed.

Lemma sibling_chain_sibling_third (block : Handle) (p : Node) :
  matchLanguageClass (classesOf block) = None ->
  dataLanguage block = [] ->
  0 < length (textContent p) < 30 ->
  toLowerCase (trim (textContent p)) ∈ PopupContent.knownLangs ->
  PopupContent.detectCodeLanguage toLowerCase block (Some p) = toLowerCase (trim (textContent p)).
Proof.
  unfold PopupContent.detectCodeLanguage, PopupContent.siblingLanguage. intros -> -> [Hpos Hlt] Hin.
  assert (Nat.eqb (length (textContent p)) 0 = false) as -> by (apply Nat.eqb_neq; lia).
  assert (Nat.ltb (length (textContent p)) 30 = true) as -> by (apply Nat.ltb_lt; lia).
  cbn [negb andb].
  assert (existsb (jstr_eqb (toLowerCase (trim (textContent p)))) PopupContent.knownLangs = true)
    as ->; [|reflexivity].
  apply existsb_exists. exists (toLowerCase (trim (textContent p))).
  split; [by apply list_elem_of_In | by apply bool_decide_eq_true_2].
Qed.

Lemma sibling_chain_fallback (block : Handle) (prev : option Node) :
  matchLanguageClass (classesOf block) = None ->
  dataLanguage block = [] ->
  PopupContent.siblingLanguage toLowerCase prev = None ->
  PopupContent.detectCodeLanguage toLowerCase block prev = []
  /\ exists code, PopupContent.codeBlockPart toLowerCase block prev = fence [] code.
Proof.
  unfold PopupContent.codeBlockPart, PopupContent.detectCodeLanguage. intros -> -> ->.
  split; [reflexivity | by eexists].
Qed.

(** The content script of content.js stops after the second step. *)
Lemma detectCodeLanguage_no_hint (block : Handle) :
  matchLanguageClass (classesOf block) = None ->
  dataLanguage block = [] ->
  detectCodeLanguage block = [].
Proof. unfold detectCodeLanguage. by intros -> ->. Qed.

End LanguageFacts.

(* ===================================================================== *)
(** ** The claims *)
(* ===================================================================== *)

(** C1, as amended.  The loop body increments the stability counter when
    the probed count equals the previous one and resets it to 0 otherwise;
    the loop leaves through [break] exactly when the counter reaches 3; no
    run takes more than 100 attempts, and a run whose counter has not
    reached 3 leaves through the bound, after exactly 100 attempts; and when
    the count stops growing after [k] probes with [k + 3 <= 100], the loop
    reaches its stable exit within [k + 3] probes. *)
Theorem converge_stable_within (probe : Converger.Probe) (k : nat) :
  let r := Converger.converge probe in
  (forall count c, count = Converger.lastCount c ->
     Converger.compare count c =
     (if Nat.leb 3 (S (Converger.stable c)) then Converger.Break else Converger.Continue)
       (Converger.mkCounters (S (Converger.stable c)) (Converger.lastCount c)))
  /\ (forall count c, count <> Converger.lastCount c ->
        Converger.compare count c = Converger.Continue (Converger.mkCounters 0 count))
  /\ (Converger.exit r = Converger.Stable <-> Converger.stable (Converger.final r) = 3)
  /\ Converger.attempts r <= 100
  /\ Converger.perturbations (Converger.trace r) = Converger.attempts r
  /\ (Converger.stable (Converger.final r) <> 3 ->
      Converger.exit r = Converger.Exhausted /\ Converger.attempts r = 100)
  /\ (Converger.exit r = Converger.Exhausted ->
      Converger.stable (Converger.final r) < 3 /\ Converger.attempts r = 100)
  /\ (Converger.stopsGrowingAfter k probe -> k + 3 <= 100 ->
      Converger.exit r = Converger.Stable /\ Converger.attempts r <= k + 3).
Proof.
  intros r. split_and!.
  - apply compare_equal.
  - apply compare_changed.
  - destruct (loop_exit probe Converger.MAX_ATTEMPTS 0
                (Converger.mkCounters 0 (probe 0))
                [Converger.Progress Converger.starting (probe 0)])
      as [[He Hs]|(He & Hs & _)]; [cbv; lia | |];
      fold (Converger.converge probe) in He, Hs; fold r in He, Hs.
    + split; [intros _; exact Hs | intros _; exact He].
    + unfold Converger.STABLE_THRESHOLD in Hs. split; [congruence | lia].
  - apply (loop_attempts_bound probe Converger.MAX_ATTEMPTS 0).
  - pose proof (loop_perturbations probe Converger.MAX_ATTEMPTS 0
                  (Converger.mkCounters 0 (probe 0))
                  [Converger.Progress Converger.starting (probe 0)]) as H.
    fold (Converger.converge probe) in H. fold r in H.
    change (Converger.perturbations [_]) with 0 in H. lia.
  - destruct (loop_exit probe Converger.MAX_ATTEMPTS 0
                (Converger.mkCounters 0 (probe 0))
                [Converger.Progress Converger.starting (probe 0)])
      as [[He Hs]|(He & Hs & Ha)]; [cbv; lia | |];
      fold (Converger.converge probe) in He, Hs; fold r in He, Hs;
      try (fold (Converger.converge probe) in Ha; fold r in Ha).
    + unfold Converger.STABLE_THRESHOLD in Hs. intros Hne. by destruct Hne.
    + intros _. split; [exact He | exact Ha].
  - destruct (loop_exit probe Converger.MAX_ATTEMPTS 0
                (Converger.mkCounters 0 (probe 0))
                [Converger.Progress Converger.starting (probe 0)])
      as [[He Hs]|(He & Hs & Ha)]; [cbv; lia | |];
      fold (Converger.converge probe) in He, Hs; fold r in He, Hs;
      try (fold (Converger.converge probe) in Ha; fold r in Ha).
    + intros Hx. congruence.
    + intros _. split; [exact Hs | exact Ha].
  - intros Hk Hle.
    destruct (loop_reaches_stable probe k Hk Converger.MAX_ATTEMPTS 0
                (Converger.mkCounters 0 (probe 0))
                [Converger.Progress Converger.starting (probe 0)])
      as [He Ha];
      [reflexivity | cbv; lia
      | cbv [Converger.MAX_ATTEMPTS Converger.STABLE_THRESHOLD]; lia |].
    fold (Converger.converge probe) in He, Ha. fold r in He, Ha.
    unfold Converger.STABLE_THRESHOLD in Ha. split; [exact He | lia].
Qed.

Lemma converge_stable_within_witness :
  Converger.stopsGrowingAfter 5 (Samples.growingTo 5)
  /\ Converger.exit (Converger.converge (Samples.growingTo 5)) = Converger.Stable
  /\ Converger.attempts (Converger.converge (Samples.growingTo 5)) <= 5 + 3.
Proof.
  assert (Converger.stopsGrowingAfter 5 (Samples.growingTo 5)) as Hk
    by (intros t Ht; unfold Samples.growingTo; lia).
  split; [exact Hk|].
  apply (converge_stable_within (Samples.growingTo 5) 5); [exact Hk | lia].
Defined.

(** C1, as stated, fails when growth stops late: a count that grows for 98
    probes and then stays leaves the loop through its bound after 100
    probes, with two stable rounds only. *)
Lemma converge_exhausted_when_growth_stops_late :
  Converger.stopsGrowingAfter 98 (Samples.growingTo 98)
  /\ Converger.exit (Converger.converge (Samples.growingTo 98)) = Converger.Exhausted
  /\ Converger.attempts (Converger.converge (Samples.growingTo 98)) = 100
  /\ Converger.final (Converger.converge (Samples.growingTo 98)) = Converger.mkCounters 2 98.
Proof.
  split; [intros t Ht; unfold Samples.growingTo; lia|].
  by vm_compute.
Qed.

(** C2, as amended.  The fingerprint of a message is its role, the
    separator [::] and the first 200 characters of its content, trimmed
    after the cut; deduplication goes through the messages in order, keeps a
    message when no earlier message has its fingerprint and discards it
    otherwise. *)
Theorem deduplicate_keeps_first (msgs : list Message) (m : Message) :
  Dedup.fingerprint m =
    roleString (role m) ++ js "::" ++ trim (take 200 (content m))
  /\ Dedup.deduplicateMessages [] = []
  /\ Dedup.deduplicateMessages (msgs ++ [m]) =
     if bool_decide (Dedup.fingerprint m ∈ Dedup.fingerprint <$> msgs)
     then Dedup.deduplicateMessages msgs
     else Dedup.deduplicateMessages msgs ++ [m].
Proof.
  split_and!; [reflexivity | reflexivity |].
  unfold Dedup.deduplicateMessages. rewrite filterSeen_snoc.
  destruct (decide (Dedup.fingerprint m ∈ Dedup.fingerprint <$> msgs)) as [Hin|Hin].
  - rewrite !bool_decide_eq_true_2 by (exact Hin || by right). apply app_nil_r.
  - rewrite (bool_decide_eq_false_2 _ Hin), bool_decide_eq_false_2; [reflexivity|].
    intros [H|H]; [by apply not_elem_of_empty in H | done].
Qed.

(** C2, as stated, fails: the two sample contents are trimmed and differ in
    their first 200 characters, so each message is the first to bear its
    fingerprint as the claim words it, yet the second one is discarded. *)
Lemma deduplicate_trims_after_cut :
  trim (content Samples.spaced) = content Samples.spaced
  /\ trim (content Samples.unspaced) = content Samples.unspaced
  /\ Dedup.specFingerprint Samples.spaced <> Dedup.specFingerprint Samples.unspaced
  /\ Dedup.specDeduplicate [Samples.spaced; Samples.unspaced]
     = [Samples.spaced; Samples.unspaced]
  /\ Dedup.deduplicateMessages [Samples.spaced; Samples.unspaced] = [Samples.spaced].
Proof.
  split_and!; by vm_compute.
Qed.

(** C8.  Deduplication is idempotent, never lengthens the list, and leaves
    messages with pairwise distinct fingerprints. *)
Theorem deduplicate_idempotent (msgs : list Message) :
  Dedup.deduplicateMessages (Dedup.deduplicateMessages msgs) = Dedup.deduplicateMessages msgs
  /\ length (Dedup.deduplicateMessages msgs) <= length msgs
  /\ NoDup (Dedup.fingerprint <$> Dedup.deduplicateMessages msgs).
Proof.
  unfold Dedup.deduplicateMessages. split_and!.
  - apply filterSeen_fixed; [apply filterSeen_NoDup|].
    intros m _. apply not_elem_of_empty.
  - apply filterSeen_length.
  - apply filterSeen_NoDup.
Qed.

(** C3, at the failing input.  A field holding a carriage return and no
    double quote, comma or newline is written bare by the [esc] of
    content.js, while [escapeCSV] of lib/export-csv.js quotes it; the in-page
    writer puts it into the row as it is. *)
Theorem esc_leaves_carriage_return_bare :
  CR ∈ Samples.crField
  /\ Csv.esc (Csv.VString Samples.crField) = Samples.crField
  /\ Csv.escapeCSV (Csv.VString Samples.crField) = Csv.quoted Samples.crField
  /\ Csv.exportCSV (mkChatData (js "Demo") [mkMessage user Samples.crField None] None)
     = [Csv.BOM] ++ js "Turn,Role,Content,Timestamp" ++ [LF]
       ++ js "1,You," ++ Samples.crField ++ js ",".
Proof.
  split_and!; [| reflexivity | reflexivity | reflexivity].
  unfold Samples.crField. cbn. rewrite !elem_of_cons. tauto.
Qed.

(** The rule of C3 holds for [escapeCSV]: quoted with doubled quotes exactly
    when the field has a double quote, a comma, a newline or a carriage
    return. *)
Lemma escapeCSV_rule (s : jstr) :
  (Csv.needsQuoting s -> Csv.escapeCSV (Csv.VString s) = Csv.quoted s)
  /\ (~ Csv.needsQuoting s -> Csv.escapeCSV (Csv.VString s) = s).
Proof. split; [apply escapeCSV_quotes | apply escapeCSV_bare]. Qed.

(** The example of C3, for both escapers. *)
Example escape_said_hi :
  Csv.escapeCSV (Csv.VString Samples.saidHi)
  = [dquote] ++ js "He said " ++ [dquote; dquote] ++ js "hi" ++ [dquote; dquote]
    ++ js ", then left" ++ [dquote]
  /\ Csv.esc (Csv.VString Samples.saidHi) = Csv.escapeCSV (Csv.VString Samples.saidHi).
Proof. split; reflexivity. Qed.

Lemma isSafeChar_spec (c : N) : Filename.isSafeChar c = true <-> Filename.SafeChar c.
Proof.
  unfold Filename.isSafeChar, Filename.SafeChar.
  rewrite !orb_true_iff, !andb_true_iff, !N.leb_le, !N.eqb_eq. tauto.
Qed.

(** C9.  A missing or empty title gives [gemini-chat]; for every title the
    result is not empty, has at most 80 characters, and holds ASCII letters,
    digits, underscores and hyphens only: each of the first 80 characters of
    the name is kept when it is one of these and replaced by an underscore
    otherwise. *)
Theorem sanitizeFilename_safe (title : option jstr) :
  Filename.sanitizeFilename None = js "gemini-chat"
  /\ Filename.sanitizeFilename (Some []) = js "gemini-chat"
  /\ Filename.sanitizeFilename title <> []
  /\ length (Filename.sanitizeFilename title) <= 80
  /\ Forall Filename.SafeChar (Filename.sanitizeFilename title)
  /\ (forall i c, i < 80 -> Filename.orDefaultName title !! i = Some c ->
      Filename.sanitizeFilename title !! i
      = Some (if Filename.isSafeChar c then c else underscore)).
Proof.
  split_and!; [reflexivity | reflexivity | | | |].
  - unfold Filename.sanitizeFilename, substring0.
    assert (exists c t, Filename.orDefaultName title = c :: t) as (c & t & ->)
      by (destruct title as [[|c t]|]; by eexists _, _).
    discriminate.
  - unfold Filename.sanitizeFilename, substring0. rewrite length_take. lia.
  - unfold Filename.sanitizeFilename, substring0. apply Forall_take, Forall_forall.
    intros c Hc. apply list_elem_of_fmap in Hc as (d & -> & _).
    destruct (Filename.isSafeChar d) eqn:Hd.
    + by apply isSafeChar_spec.
    + unfold Filename.SafeChar. tauto.
  - intros i c Hi Hc. unfold Filename.sanitizeFilename, substring0.
    rewrite lookup_take_lt by exact Hi.
    change (map ?f ?l) with (f <$> l). by rewrite list_lookup_fmap, Hc.
Qed.

Lemma sanitizeFilename_safe_witness :
  Filename.sanitizeFilename (Some (js "a/b")) !! 1 = Some underscore.
Proof.
  destruct (sanitizeFilename_safe (Some (js "a/b"))) as (_ & _ & _ & _ & _ & H).
  apply (H 1 47%N); [lia | reflexivity].
Defined.

(** C10.  Reading an escaped field back gives the original string, for
    [escapeCSV] and for [esc]; hence distinct strings have distinct escaped
    fields. *)
Theorem csv_escape_lossless (s1 s2 : jstr) :
  Csv.decodeField (Csv.escapeCSV (Csv.VString s1)) = s1
  /\ Csv.decodeField (Csv.esc (Csv.VString s1)) = s1
  /\ (s1 <> s2 -> Csv.escapeCSV (Csv.VString s1) <> Csv.escapeCSV (Csv.VString s2))
  /\ (s1 <> s2 -> Csv.esc (Csv.VString s1) <> Csv.esc (Csv.VString s2)).
Proof.
  split_and!.
  - apply decode_escapeCSV.
  - apply decode_esc.
  - intros Hne Heq. apply Hne.
    by rewrite <- (decode_escapeCSV s1), <- (decode_escapeCSV s2), Heq.
  - intros Hne Heq. apply Hne.
    by rewrite <- (decode_esc s1), <- (decode_esc s2), Heq.
Qed.

Lemma csv_escape_lossless_witness :
  Csv.escapeCSV (Csv.VString Samples.saidHi) <> Csv.escapeCSV (Csv.VString (js "hi"))
  /\ Csv.esc (Csv.VString Samples.saidHi) <> Csv.esc (Csv.VString (js "hi")).
Proof.
  destruct (csv_escape_lossless Samples.saidHi (js "hi")) as (_ & _ & H1 & H2).
  split; [apply H1 | apply H2]; vm_compute; discriminate.
Defined.

(** C4, at the failing input.  The block has no language class and no data
    attribute, and the element before it reads [Python].  content.js renders
    the fence with an empty tag, its [detectCodeLanguage] having no third
    step; the content script of the popup tags the same block [python]. *)
Theorem sibling_hint_not_used_by_content_js :
  let block := Dom.mkHandle false Samples.plainBlock in
  Render.matchLanguageClass (Render.classesOf block) = None
  /\ Render.dataLanguage block = []
  /\ Render.detectCodeLanguage block = []
  /\ Render.extractFormattedText (Some (Dom.mkHandle false Samples.labelledBlock))
     = js "Python" ++ [LF; LF] ++ js "```" ++ [LF] ++ js "print(1)" ++ [LF] ++ js "```"
  /\ PopupContent.detectCodeLanguage PopupContent.asciiToLowerCase block (Some Samples.languageLine)
     = js "python"
  /\ PopupContent.codeBlockPart PopupContent.asciiToLowerCase block (Some Samples.languageLine)
     = Render.fence (js "python") (js "print(1)").
Proof. split_and!; by vm_compute. Qed.

(** C5.  Every turn of the assembled transcript has text; a side of a
    container whose rendered text is empty after trimming, as it is when the
    text is white space only, adds no turn of its role. *)
Theorem empty_turns_excluded (doc : Dom.Node) (container : Dom.Handle) :
  (forall m, m ∈ Assemble.extractCurrentMessages doc -> content m <> [])
  /\ (forall el,
        Forall (fun c => isWhiteSpace c = true)
          (concat (Render.processNode (Dom.insidePre el) (Dom.node el) [])) ->
        Render.extractFormattedText (Some el) = [])
  /\ (forall uq msgs,
        Dom.querySelector (Dom.ByTag (js "user-query")) container = Some uq ->
        trim (concat (Render.processNode (Dom.insidePre (Assemble.queryElement uq))
                        (Dom.node (Assemble.queryElement uq)) [])) = [] ->
        exists added,
          Assemble.extractContainer msgs container = msgs ++ added
          /\ forall m, m ∈ added -> role m <> user)
  /\ (forall mr msgs,
        Dom.querySelector (Dom.ByTag (js "model-response")) container = Some mr ->
        trim (concat (Render.processNode (Dom.insidePre (Assemble.responseElement mr))
                        (Dom.node (Assemble.responseElement mr)) [])) = [] ->
        exists added,
          Assemble.extractContainer msgs container = msgs ++ added
          /\ forall m, m ∈ added -> role m <> assistant).
Proof.
  split_and!.
  - intros m. apply extractCurrentMessages_hasText.
  - apply extractFormattedText_blank.
  - intros uq msgs Hq Hblank. exists (Assemble.extractContainer [] container).
    split; [apply extractContainer_app|].
    intros m. by apply (extractContainer_no_user container uq).
  - intros mr msgs Hq Hblank. exists (Assemble.extractContainer [] container).
    split; [apply extractContainer_app|].
    intros m. by apply (extractContainer_no_assistant container mr).
Qed.

Lemma empty_turns_excluded_witness :
  content (mkMessage assistant (js "Hi") None) <> []
  /\ exists added,
       Assemble.extractContainer [] (Dom.mkHandle false Samples.blankQuery) = [] ++ added
       /\ forall m, m ∈ added -> role m <> user.
Proof.
  destruct (empty_turns_excluded (Samples.chatPage [Samples.blankQuery])
              (Dom.mkHandle false Samples.blankQuery)) as (Htext & _ & Huser & _).
  split.
  - apply Htext. vm_compute. left.
  - eapply Huser; reflexivity.
Defined.

(** C6.  On the sample transcript both writers produce the lines [# Demo],
    [## You], [> Hello], [## Gemini] and the fenced python block holding
    [print(1)]; in general every line of a user message is written with
    [> ] before it and every line of an assistant message as it is. *)
Theorem markdown_lines (now : jstr) (data : ChatData) :
  let demoLines :=
    [js "# Demo"; []] ++ splitOn LF (Markdown.metadataLine now 2)
    ++ [[]; js "---"; []; js "## You"; []; js "> Hello"; []; js "## Gemini"; [];
        js "Hi there"; js "```python"; js "print(1)"; js "```"; []] in
  Markdown.linesOf (Markdown.exportMarkdown now Samples.demo) = demoLines
  /\ Markdown.linesOf (Markdown.exportToMarkdown now Samples.demo) = demoLines
  /\ (forall m l, m ∈ messages data -> l ∈ splitOn LF (content m) ->
      let written := match role m with user => js "> " ++ l | assistant => l end in
      written ∈ Markdown.linesOf (Markdown.exportMarkdown now data)
      /\ written ∈ Markdown.linesOf (Markdown.exportToMarkdown now data))
  /\ (forall m, m ∈ messages data -> role m = assistant ->
      content m ∈ Markdown.exportMarkdownLines now data
      /\ content m ∈ Markdown.exportToMarkdownLines now data).
Proof.
  intros demoLines. split_and!.
  - rewrite linesOf_exportMarkdown. reflexivity.
  - rewrite linesOf_exportToMarkdown. reflexivity.
  - intros m l Hm Hl. split.
    + apply (exportMarkdown_emits now data m l Hm Hl).
    + apply (exportToMarkdown_emits now data m l Hm Hl).
  - intros m Hm Hrole.
    assert (content m ∈ Markdown.messageLines m /\ content m ∈ Markdown.libMessageLines m)
      as [H1 H2].
    { unfold Markdown.messageLines, Markdown.libMessageLines. rewrite Hrole.
      split; rewrite !elem_of_app; right; left; left. }
    unfold Markdown.exportMarkdownLines, Markdown.exportToMarkdownLines.
    split; rewrite !elem_of_app; right; [left|]; apply elem_of_flat_map; by exists m.
Qed.

Lemma markdown_lines_witness :
  js "> Hello" ∈ Markdown.linesOf (Markdown.exportMarkdown (js "now") Samples.demo)
  /\ Samples.fencedPython ∈ Markdown.exportMarkdownLines (js "now") Samples.demo.
Proof.
  destruct (markdown_lines (js "now") Samples.demo) as (_ & _ & Hline & Hverbatim).
  split.
  - apply (Hline (mkMessage user (js "Hello") None) (js "Hello")); vm_compute; left.
  - apply (Hverbatim (mkMessage assistant Samples.fencedPython None));
      [vm_compute; right; left | reflexivity].
Defined.


(** The rule of C7 holds for the background [handleExport] whatever the chat
    data, and for [exportChat] when the chat data has a message; [exportChat]
    rejects every request for an unsupported format and writes nothing. *)
Lemma unsupported_format_rule (format : jstr) :
  Coordinator.isSupported format = false ->
  (forall data,
     Coordinator.handleExport format data = inl (js "Unsupported export format: " ++ format))
  /\ (forall env chatData, exists message,
        Coordinator.exportChat env chatData format = (Coordinator.Rejected message, []))
  /\ (forall env d, messages d <> [] ->
        Coordinator.exportChat env (Some d) format
        = (Coordinator.exportFailed format (Coordinator.unsupportedMessage format), [])).
Proof.
  intros Hfmt. split_and!.
  - intros data. by apply handleExport_unsupported.
  - intros env chatData. by apply exportChat_unsupported_rejects.
  - intros env d Hd. by apply exportChat_unsupported.
Qed.

(* ===================================================================== *)
(** ** More on the convergence loop *)
(* ===================================================================== *)

Section ConvergerMore.

Import Converger Measures.

Variable probe : Probe.

Local Abbreviation tracks := (Measures.tracks probe).

Lemma tracks_start : tracks 0 (mkCounters 0 (probe 0)).
Proof.
  unfold Measures.tracks. cbn [stable lastCount]. split_and!; [done | lia | | by left].
  intros j Hj. by replace j with 0 by lia.
Qed.

Lemma tracks_step (i : nat) (c c' : Counters) :
  tracks i c ->
  compare (probe (S i)) c = Continue c' \/ compare (probe (S i)) c = Break c' ->
  tracks (S i) c'.
Proof.
  intros (Hlast & Hle & Hrun & Hmax). unfold compare.
  destruct (Nat.eqb_spec (probe (S i)) (lastCount c)) as [Heq|Hne].
  - intros H.
    assert (c' = mkCounters (S (stable c)) (lastCount c)) as ->
      by (destruct (Nat.leb STABLE_THRESHOLD (S (stable c)));
          destruct H as [[=<-]|[=<-]]; reflexivity).
    clear H. unfold Measures.tracks. cbn [stable lastCount]. split_and!.
    + congruence.
    + lia.
    + intros j Hj. destruct (decide (j = S i)) as [->|Hj']; [done|].
      rewrite Heq, Hlast. apply Hrun. lia.
    + destruct Hmax as [Hmax|Hmax]; [left; lia | right].
      replace (S i - S (stable c) - 1) with (i - stable c - 1) by lia.
      replace (S i - S (stable c)) with (i - stable c) by lia. exact Hmax.
  - intros [[=<-]|[=]]. unfold Measures.tracks. cbn [stable lastCount].
    split_and!; [done | lia | |].
    + intros j Hj. by replace j with (S i) by lia.
    + right. replace (S i - 0 - 1) with i by lia.
      replace (S i - 0) with (S i) by lia. congruence.
Qed.

(** While the counter is below the threshold no probe so far has
    completed three stable rounds. *)
Lemma tracks_not_yet (i : nat) (c : Counters) :
  tracks i c -> stable c < STABLE_THRESHOLD -> ~ threeStableAt probe i.
Proof.
  unfold STABLE_THRESHOLD, threeStableAt. intros (_ & Hle & Hrun & Hmax) Hlt (H3 & E1 & E2 & E3).
  destruct Hmax as [Hmax|Hmax]; [lia|]. apply Hmax.
  destruct (stable c) as [|[|[|n]]]; [| | | lia].
  - replace (i - 0 - 1) with (i - 1) by lia. by replace (i - 0) with i by lia.
  - replace (i - 1 - 1) with (i - 2) by lia. exact E2.
  - replace (i - 2 - 1) with (i - 3) by lia. exact E1.
Qed.

Lemma loop_tracks (remaining : nat) : forall i c tr,
  tracks i c ->
  let r := loop probe remaining i c tr in
  tracks (attempts r) (final r).
Proof.
  induction remaining as [|rem IH]; intros i c tr Hc; cbn [loop]; [exact Hc|].
  destruct (compare (probe (S i)) c) as [c'|c'] eqn:Hcmp.
  - cbn. apply (tracks_step i c); [exact Hc | by right].
  - apply IH. apply (tracks_step i c); [exact Hc | by left].
Qed.

Lemma loop_first_stable (remaining : nat) : forall i c tr,
  tracks i c -> stable c < STABLE_THRESHOLD ->
  let r := loop probe remaining i c tr in
  forall a, i <= a < attempts r -> ~ threeStableAt probe a.
Proof.
  induction remaining as [|rem IH]; intros i c tr Hc Hlt; cbn [loop].
  - cbn. lia.
  - destruct (compare (probe (S i)) c) as [c'|c'] eqn:Hcmp.
    + cbn. intros a Ha. replace a with i by lia. by apply (tracks_not_yet i c).
    + assert (tracks (S i) c') as Hc' by (apply (tracks_step i c); [exact Hc | by left]).
      assert (stable c' < STABLE_THRESHOLD) as Hlt'.
      { revert Hcmp. unfold compare, STABLE_THRESHOLD in *.
        destruct (Nat.eqb _ _).
        - destruct (Nat.leb_spec 3 (S (stable c))); [discriminate|].
          intros [=<-]. exact H.
        - intros [=<-]. cbn. lia. }
      intros a Ha. destruct (decide (a = i)) as [->|Hne].
      * by apply (tracks_not_yet i c).
      * apply (IH (S i) c' (tr ++ iterationEvents (probe (S i))) Hc' Hlt'). lia.
Qed.

Lemma loop_trace (remaining : nat) : forall i c tr,
  let r := loop probe remaining i c tr in
  trace r = tr ++ flat_map (fun j => iterationEvents (probe j)) (seq (S i) (attempts r - i)).
Proof.
  induction remaining as [|rem IH]; intros i c tr; cbn [loop].
  - cbn. rewrite Nat.sub_diag. cbn. by rewrite app_nil_r.
  - destruct (compare (probe (S i)) c) as [c'|c'].
    + cbn [trace attempts]. replace (S i - i) with 1 by lia. cbn [seq flat_map].
      by rewrite app_nil_r.
    + rewrite IH.
      pose proof (loop_attempts_bound probe rem (S i) c'
                    (tr ++ iterationEvents (probe (S i)))) as Hb.
      set (r := loop probe rem (S i) c' (tr ++ iterationEvents (probe (S i)))) in *.
      replace (attempts r - i) with (S (attempts r - S i)) by lia.
      cbn [seq flat_map]. by rewrite <- app_assoc.
Qed.



End ConvergerMore.

(* ===================================================================== *)
(** ** More on deduplication *)
(* ===================================================================== *)

Section DedupMore.

Import Dedup.

Implicit Types (seen : gset jstr) (msgs : list Message) (m : Message).

Lemma filterSeen_sublist msgs : forall seen, filterSeen seen msgs `sublist_of` msgs.
Proof.
  induction msgs as [|x rest IH]; intros seen; cbn [filterSeen]; [constructor|].
  case_bool_decide; [apply sublist_cons | apply sublist_skip]; apply IH.
Qed.

Lemma filterSeen_covers msgs : forall seen m,
  m ∈ msgs -> fingerprint m ∈ seen \/ fingerprint m ∈ fingerprint <$> filterSeen seen msgs.
Proof.
  induction msgs as [|x rest IH]; intros seen m; [by rewrite elem_of_nil|].
  rewrite elem_of_cons. cbn [filterSeen]. intros [->|Hin].
  - case_bool_decide as Hx; [by left|]. right. rewrite fmap_cons. left.
  - case_bool_decide as Hx; [by apply IH|].
    destruct (IH ({[fingerprint x]} ∪ seen) m Hin) as [H|H].
    + apply elem_of_union in H as [H|H]; [|by left].
      apply elem_of_singleton in H. right. rewrite fmap_cons, H. left.
    + right. rewrite fmap_cons. by right.
Qed.

(** Membership in the sets that [filterSeen] builds. *)
Ltac in_sets :=
  repeat (rewrite elem_of_union || rewrite elem_of_singleton
          || rewrite elem_of_list_to_set || rewrite elem_of_cons
          || rewrite not_elem_of_union).

Lemma filterSeen_union msgs : forall s1 s2,
  filterSeen (s1 ∪ s2) msgs = filter (fun m => fingerprint m ∉ s1) (filterSeen s2 msgs).
Proof.
  induction msgs as [|x rest IH]; intros s1 s2; cbn [filterSeen]; [reflexivity|].
  destruct (decide (fingerprint x ∈ s2)) as [H2|H2].
  - rewrite (bool_decide_eq_true_2 _ H2).
    rewrite bool_decide_eq_true_2 by (in_sets; tauto). apply IH.
  - rewrite (bool_decide_eq_false_2 _ H2).
    destruct (decide (fingerprint x ∈ s1)) as [H1|H1].
    + rewrite bool_decide_eq_true_2 by (in_sets; tauto).
      rewrite filter_cons_False by (intros H; by apply H).
      rewrite <- IH. f_equal. apply set_eq. intros y. in_sets.
      split; [tauto|]. intros [H|[->|H]]; tauto.
    + rewrite bool_decide_eq_false_2 by (in_sets; tauto).
      rewrite filter_cons_True by exact H1.
      f_equal. rewrite <- IH. f_equal. apply set_eq. intros y. in_sets. tauto.
Qed.

Lemma filterSeen_app (a b : list Message) : forall seen,
  filterSeen seen (a ++ b)
  = filterSeen seen a ++ filterSeen (list_to_set (fingerprint <$> a) ∪ seen) b.
Proof.
  induction a as [|x rest IH]; intros seen; cbn [app filterSeen].
  - f_equal. apply set_eq. intros y. rewrite fmap_nil. in_sets.
    rewrite elem_of_nil. tauto.
  - case_bool_decide as Hx; rewrite IH; cbn [app].
    + do 2 f_equal. apply set_eq. intros y. rewrite fmap_cons. in_sets.
      split; [tauto|]. intros [[->|H]|H]; tauto.
    + do 3 f_equal. apply set_eq. intros y. rewrite fmap_cons. in_sets. tauto.
Qed.

End DedupMore.

(* ===================================================================== *)
(** ** Trimming *)
(* ===================================================================== *)

Section TrimMore.

Import Measures.

Variable p : N -> bool.

Lemma dropWhile_head (s : jstr) (c : N) (t : jstr) :
  dropWhile p s = c :: t -> p c = false.
Proof.
  induction s as [|d s IH]; cbn; [done|].
  destruct (p d) eqn:Hd; [exact IH|]. by intros [= <- _].
Qed.

Lemma dropWhile_split (s : jstr) :
  exists dropped, s = dropped ++ dropWhile p s.
Proof.
  induction s as [|d s [l IH]]; cbn; [by exists []|].
  destruct (p d); [|by exists []]. exists (d :: l). cbn. by rewrite <- IH.
Qed.

Lemma dropWhile_keeps (s : jstr) :
  (forall c, head s = Some c -> p c = false) -> dropWhile p s = s.
Proof.
  destruct s as [|d s]; [done|]. intros H. cbn. by rewrite (H d).
Qed.

End TrimMore.

Section TrimShape.

Import Measures.

Lemma last_rev (s : jstr) : last (rev s) = head s.
Proof. destruct s as [|c t]; [done|]. cbn [rev]. apply last_snoc. Qed.

Lemma trimEnd_last (s : jstr) (c : N) :
  last (trimEnd s) = Some c -> isWhiteSpace c = false.
Proof.
  unfold trimEnd. rewrite last_rev.
  destruct (dropWhile isWhiteSpace (rev s)) as [|d t] eqn:Hd; [done|].
  intros [= <-]. by apply (dropWhile_head _ _ _ _ Hd).
Qed.

Lemma trimEnd_prefix (s : jstr) : exists dropped, s = trimEnd s ++ dropped.
Proof.
  unfold trimEnd. destruct (dropWhile_split isWhiteSpace (rev s)) as [l Hl].
  exists (rev l). rewrite <- rev_app_distr, <- Hl. by rewrite rev_involutive.
Qed.

Lemma trim_Trimmed (s : jstr) : Trimmed (trim s).
Proof.
  unfold Trimmed, trim. intros c [Hh|Hl]; [|by apply (trimEnd_last (trimStart s))].
  destruct (trimEnd_prefix (trimStart s)) as [l Hs].
  destruct (trimEnd (trimStart s)) as [|d t]; [done|].
  injection Hh as ->. rewrite <- app_comm_cons in Hs.
  by apply (dropWhile_head isWhiteSpace s c (t ++ l)).
Qed.

Lemma Trimmed_trim (s : jstr) : Trimmed s -> trim s = s.
Proof.
  intros H. unfold trim, trimStart.
  rewrite (dropWhile_keeps isWhiteSpace s) by (intros c Hc; apply H; by left).
  unfold trimEnd. rewrite dropWhile_keeps; [apply rev_involutive|].
  intros c Hc. apply H. right. by rewrite <- (rev_involutive s), last_rev.
Qed.

Lemma trim_idempotent (s : jstr) : trim (trim s) = trim s.
Proof. apply Trimmed_trim, trim_Trimmed. Qed.

End TrimShape.

(* ===================================================================== *)
(** ** More on assembling the transcript *)
(* ===================================================================== *)

Section AssembleMore.

Import Dom Render Assemble Measures.

(** What a pushed turn looks like. *)
Lemma pushIfText_turn (r : Role) (text : jstr) :
  pushIfText r text [] = [] \/ pushIfText r text [] = [mkMessage r text None].
Proof. destruct text; [by left | by right]. Qed.

Lemma extractContainer_split (container : Handle) :
  exists users assistants,
    extractContainer [] container = users ++ assistants
    /\ (users = [] \/ exists el, users = [mkMessage user (extractFormattedText (Some el)) None])
    /\ (assistants = []
        \/ exists el, assistants = [mkMessage assistant (extractFormattedText (Some el)) None]).
Proof.
  unfold extractContainer.
  destruct (querySelector (ByTag (js "user-query")) container) as [uq|];
    destruct (querySelector (ByTag (js "model-response")) container) as [mr|].
  - rewrite pushIfText_app. eexists _, _. split; [reflexivity|]. split.
    + destruct (pushIfText_turn user (extractFormattedText (Some (queryElement uq))))
        as [->| ->]; [by left | right; by eexists].
    + destruct (pushIfText_turn assistant (extractFormattedText (Some (responseElement mr))))
        as [->| ->]; [by left | right; by eexists].
  - exists (pushIfText user (extractFormattedText (Some (queryElement uq))) []), [].
    rewrite app_nil_r. split; [reflexivity|]. split; [|by left].
    destruct (pushIfText_turn user (extractFormattedText (Some (queryElement uq))))
      as [->| ->]; [by left | right; by eexists].
  - exists [], (pushIfText assistant (extractFormattedText (Some (responseElement mr))) []).
    split; [reflexivity|]. split; [by left|].
    destruct (pushIfText_turn assistant (extractFormattedText (Some (responseElement mr))))
      as [->| ->]; [by left | right; by eexists].
  - exists [], []. split_and!; [reflexivity | by left | by left].
Qed.

Lemma extractContainer_roles (container : Handle) :
  role <$> extractContainer [] container `sublist_of` [user; assistant].
Proof.
  destruct (extractContainer_split container) as (us & as_ & -> & Hu & Ha).
  destruct Hu as [->|[el ->]]; destruct Ha as [->|[el' ->]]; cbn;
    repeat (apply sublist_skip || apply sublist_cons || apply sublist_nil).
Qed.

Lemma extractContainer_from_text (container : Handle) (m : Message) :
  m ∈ extractContainer [] container ->
  timestamp m = None /\ exists el, content m = extractFormattedText (Some el).
Proof.
  destruct (extractContainer_split container) as (us & as_ & -> & Hu & Ha).
  rewrite elem_of_app.
  destruct Hu as [->|[el ->]]; destruct Ha as [->|[el' ->]];
    rewrite ?elem_of_nil, ?list_elem_of_singleton; intros [H|H]; try done;
    subst m; split; try reflexivity; by eexists.
Qed.

Lemma fold_extractContainer_flat (containers : list Handle) : forall msgs,
  fold_left extractContainer containers msgs
  = msgs ++ flat_map (extractContainer []) containers.
Proof.
  induction containers as [|c rest IH]; intros msgs; cbn [fold_left flat_map].
  - by rewrite app_nil_r.
  - by rewrite IH, (extractContainer_app msgs c), <- app_assoc.
Qed.

Lemma flat_map_length_le {A B} (f : A -> list B) (n : nat) (l : list A) :
  (forall x, length (f x) <= n) -> length (flat_map f l) <= n * length l.
Proof.
  intros H. induction l as [|x l IH]; cbn [flat_map length]; [lia|].
  rewrite length_app. specialize (H x). lia.
Qed.

Lemma extractContainer_length (container : Handle) :
  length (extractContainer [] container) <= 2.
Proof.
  pose proof (sublist_length _ _ (extractContainer_roles container)) as H.
  by rewrite length_fmap in H.
Qed.

End AssembleMore.

(* ===================================================================== *)
(** ** Further properties of the history loader *)
(* ===================================================================== *)

(** The loop stops at the first probe that completes three stable rounds,
    and at its hundredth probe when there is none before: a stable exit
    means the last three probes each repeated the measurement before them,
    no earlier probe did, and [lastCount] ends as the latest measurement. *)
Theorem converge_first_stable (probe : Converger.Probe) :
  let r := Converger.converge probe in
  let a := Converger.attempts r in
  Converger.lastCount (Converger.final r) = probe a
  /\ (Converger.exit r = Converger.Stable -> Measures.threeStableAt probe a)
  /\ (Converger.exit r = Converger.Exhausted ->
      a = 100 /\ ~ Measures.threeStableAt probe 100)
  /\ (forall a', a' < a -> ~ Measures.threeStableAt probe a').
Proof.
  intros r a.
  pose proof (loop_tracks probe Converger.MAX_ATTEMPTS 0
                (Converger.mkCounters 0 (probe 0))
                [Converger.Progress Converger.starting (probe 0)]
                (tracks_start probe)) as Ht.
  fold (Converger.converge probe) in Ht. fold r in Ht. fold a in Ht.
  destruct (loop_exit probe Converger.MAX_ATTEMPTS 0
              (Converger.mkCounters 0 (probe 0))
              [Converger.Progress Converger.starting (probe 0)])
    as [[He Hs]|(He & Hs & Ha)]; [cbv; lia | |];
    fold (Converger.converge probe) in He, Hs; fold r in He, Hs.
  - split_and!.
    + apply Ht.
    + intros _. destruct Ht as (_ & Hle & Hrun & _).
      rewrite Hs in Hle, Hrun. unfold Converger.STABLE_THRESHOLD in *.
      unfold Measures.threeStableAt.
      split_and!; [exact Hle | | |];
        (etrans; [apply Hrun | symmetry; apply Hrun]); unfold a; lia.
    + rewrite He. discriminate.
    + intros a' Ha'.
      apply (loop_first_stable probe Converger.MAX_ATTEMPTS 0
               (Converger.mkCounters 0 (probe 0))
               [Converger.Progress Converger.starting (probe 0)]
               (tracks_start probe)); [cbv; lia|].
      fold (Converger.converge probe). fold r. fold a. lia.
  - fold (Converger.converge probe) in Ha. fold r in Ha. fold a in Ha.
    split_and!.
    + apply Ht.
    + rewrite He. discriminate.
    + intros _. split; [exact Ha|]. change 100 with (0 + Converger.MAX_ATTEMPTS).
      rewrite <- Ha. by apply (tracks_not_yet probe a (Converger.final r)).
    + intros a' Ha'.
      apply (loop_first_stable probe Converger.MAX_ATTEMPTS 0
               (Converger.mkCounters 0 (probe 0))
               [Converger.Progress Converger.starting (probe 0)]
               (tracks_start probe)); [cbv; lia|].
      fold (Converger.converge probe). fold r. fold a. lia.
Qed.

Lemma converge_first_stable_witness :
  Measures.threeStableAt (Samples.growingTo 5) 8
  /\ ~ Measures.threeStableAt (Samples.growingTo 5) 7.
Proof.
  destruct (converge_first_stable (Samples.growingTo 5)) as (_ & Hstable & _ & Hfirst).
  split.
  - apply Hstable. reflexivity.
  - apply Hfirst. vm_compute. lia.
Defined.

Lemma converge_trace_shape (probe : Converger.Probe) :
  let r := Converger.converge probe in
  3 <= Converger.attempts r <= 100
  /\ Converger.trace r
     = Converger.Progress Converger.starting (probe 0)
       :: flat_map (fun j => Converger.iterationEvents (probe j))
            (seq 1 (Converger.attempts r)).
Proof.
  intros r. split.
  - pose proof (loop_attempts_bound probe Converger.MAX_ATTEMPTS 0
                  (Converger.mkCounters 0 (probe 0))
                  [Converger.Progress Converger.starting (probe 0)]) as Hb.
    fold (Converger.converge probe) in Hb. fold r in Hb.
    split; [|exact (proj2 Hb)].
    pose proof (loop_tracks probe Converger.MAX_ATTEMPTS 0
                  (Converger.mkCounters 0 (probe 0))
                  [Converger.Progress Converger.starting (probe 0)]
                  (tracks_start probe)) as (_ & Hle & _).
    fold (Converger.converge probe) in Hle. fold r in Hle.
    destruct (loop_exit probe Converger.MAX_ATTEMPTS 0
                (Converger.mkCounters 0 (probe 0))
                [Converger.Progress Converger.starting (probe 0)])
      as [[_ Hs]|(_ & _ & Ha)]; [cbv; lia | |].
    + fold (Converger.converge probe) in Hs. fold r in Hs.
      unfold Converger.STABLE_THRESHOLD in Hs. lia.
    + fold (Converger.converge probe) in Ha. fold r in Ha.
      unfold Converger.MAX_ATTEMPTS in Ha. lia.
  - unfold r, Converger.converge. rewrite loop_trace.
    by rewrite Nat.sub_0_r.
Qed.

(** Every run takes between 3 and 100 probes, and what it does is the
    start report followed, for each probe in turn, by a scroll to the top, a
    wait of 600 ms and a progress report carrying that probe's count. *)
Theorem converge_trace (probe : Converger.Probe) :
  let r := Converger.converge probe in
  3 <= Converger.attempts r <= 100
  /\ Converger.trace r
     = Converger.Progress Converger.starting (probe 0)
       :: flat_map (fun j => [Converger.SetScrollTop Converger.Top; Converger.Sleep 600;
                              Converger.Progress Converger.scrolling_up (probe j)])
            (seq 1 (Converger.attempts r)).
Proof. apply converge_trace_shape. Qed.

Section LoaderFacts.

Import Dom Converger Assemble Measures.


End LoaderFacts.



(* ===================================================================== *)
(** ** Further properties of deduplication *)
(* ===================================================================== *)

(** Deduplication only removes messages: what is left is a subsequence of
    the input, in the input's order, starting with the input's first
    message; and no fingerprint is lost. *)
Theorem deduplicate_sublist (msgs : list Message) (fp : jstr) :
  Dedup.deduplicateMessages msgs `sublist_of` msgs
  /\ head (Dedup.deduplicateMessages msgs) = head msgs
  /\ (fp ∈ Dedup.fingerprint <$> Dedup.deduplicateMessages msgs
      <-> fp ∈ Dedup.fingerprint <$> msgs).
Proof.
  unfold Dedup.deduplicateMessages. split_and!.
  - apply filterSeen_sublist.
  - destruct msgs as [|m rest]; [reflexivity|]. cbn [Dedup.filterSeen].
    by rewrite bool_decide_eq_false_2 by apply not_elem_of_empty.
  - split.
    + intros H. apply list_elem_of_fmap in H as (m & -> & Hm).
      apply list_elem_of_fmap_2.
      by apply (sublist_subseteq _ _ (filterSeen_sublist msgs ∅)).
    + intros H. apply list_elem_of_fmap in H as (m & -> & Hm).
      destruct (filterSeen_covers msgs ∅ m Hm) as [H|H]; [|exact H].
      by apply not_elem_of_empty in H.
Qed.

(** Deduplication leaves a list as it is exactly when the fingerprints of
    its messages are pairwise distinct. *)
Theorem deduplicate_fixed_iff (msgs : list Message) :
  Dedup.deduplicateMessages msgs = msgs <-> NoDup (Dedup.fingerprint <$> msgs).
Proof.
  unfold Dedup.deduplicateMessages. split.
  - intros H. rewrite <- H. apply filterSeen_NoDup.
  - intros H. apply filterSeen_fixed; [exact H|].
    intros m _. apply not_elem_of_empty.
Qed.

(** Deduplicating a transcript that continues another one: the result is
    the deduplicated first part, followed by the deduplicated second part
    without the messages whose fingerprint the first part has. *)
Theorem deduplicate_app (a b : list Message) :
  Dedup.deduplicateMessages (a ++ b)
  = Dedup.deduplicateMessages a
    ++ filter (fun m => Dedup.fingerprint m ∉ Dedup.fingerprint <$> a)
         (Dedup.deduplicateMessages b).
Proof.
  unfold Dedup.deduplicateMessages. rewrite filterSeen_app. f_equal.
  rewrite filterSeen_union. apply list_filter_iff.
  intros m. by rewrite elem_of_list_to_set.
Qed.

(* ===================================================================== *)
(** ** Further properties of the assembled transcript *)
(* ===================================================================== *)

Lemma extracted_turns_shape (doc : Dom.Node) (m : Message) :
  m ∈ Assemble.extractCurrentMessages doc ->
  Measures.Trimmed (content m) /\ trim (content m) = content m /\ timestamp m = None.
Proof.
  unfold Assemble.extractCurrentMessages.
  destruct (Dom.documentQuerySelector Assemble.scrollerSelector doc) as [scroller|];
    [|by rewrite elem_of_nil].
  intros H. apply fold_extractContainer in H as [H|(c & _ & H)];
    [by apply elem_of_nil in H|].
  apply extractContainer_from_text in H as (Ht & el & ->).
  split_and!; [apply trim_Trimmed | apply trim_idempotent | exact Ht].
Qed.

(** Every turn that extraction produces has trimmed content (it neither
    starts nor ends with white space, so trimming it again changes nothing)
    and carries no timestamp. *)
Theorem extracted_turns_trimmed (doc : Dom.Node) (m : Message) :
  m ∈ Assemble.extractCurrentMessages doc ->
  Measures.Trimmed (content m) /\ trim (content m) = content m /\ timestamp m = None.
Proof. apply extracted_turns_shape. Qed.

Lemma extracted_turns_trimmed_witness :
  trim (js "Hi") = js "Hi".
Proof.
  apply (extracted_turns_trimmed (Samples.chatPage [Samples.blankQuery])
           (mkMessage assistant (js "Hi") None)).
  vm_compute. left.
Defined.

(** A container gives at most one user turn and, after it, at most one
    assistant turn; the transcript is what the containers give, in document
    order, so it has at most two turns per container counted by the probe,
    and none when the page has no scroller. *)
Theorem extracted_turns_per_container (doc : Dom.Node) (container : Dom.Handle) :
  role <$> Assemble.extractContainer [] container `sublist_of` [user; assistant]
  /\ length (Assemble.extractCurrentMessages doc) <= 2 * Assemble.containerCount doc
  /\ Assemble.extractCurrentMessages doc
     = match Dom.documentQuerySelector Assemble.scrollerSelector doc with
       | Some scroller =>
           flat_map (Assemble.extractContainer [])
             (Dom.querySelectorAll Assemble.containerSelector scroller)
       | None => []
       end.
Proof.
  split_and!.
  - apply extractContainer_roles.
  - unfold Assemble.extractCurrentMessages, Assemble.containerCount.
    destruct (Dom.documentQuerySelector Assemble.scrollerSelector doc) as [scroller|];
      [|cbn; lia].
    rewrite fold_extractContainer_flat. cbn [app].
    apply flat_map_length_le, extractContainer_length.
  - unfold Assemble.extractCurrentMessages.
    destruct (Dom.documentQuerySelector Assemble.scrollerSelector doc) as [scroller|];
      [|reflexivity].
    by rewrite fold_extractContainer_flat.
Qed.



(* ===================================================================== *)
(** ** File names *)
(* ===================================================================== *)

Section FilenameFacts.

Import Filename Requests.

Lemma safeOrUnderscore_safe (c : N) : isSafeChar (safeOrUnderscore c) = true.
Proof. unfold safeOrUnderscore. by destruct (isSafeChar c) eqn:H. Qed.

Lemma safeOrUnderscore_fixed (l : jstr) :
  Forall (fun c => isSafeChar c = true) l -> map safeOrUnderscore l = l.
Proof.
  induction 1 as [|c l Hc _ IH]; [reflexivity|]. cbn.
  unfold safeOrUnderscore at 1. by rewrite Hc, IH.
Qed.

Lemma orDefaultName_cons (title : option jstr) :
  exists c t, orDefaultName title = c :: t.
Proof. destruct title as [[|c t]|]; by eexists _, _. Qed.

Lemma sanitizeFilename_unfold (title : option jstr) :
  sanitizeFilename title = take 80 (map safeOrUnderscore (orDefaultName title)).
Proof. reflexivity. Qed.

Lemma sanitizeFilename_all_safe (title : option jstr) :
  Forall (fun c => isSafeChar c = true) (sanitizeFilename title).
Proof.
  rewrite sanitizeFilename_unfold. apply Forall_take, Forall_forall.
  intros c Hc. apply list_elem_of_fmap in Hc as (d & -> & _).
  apply safeOrUnderscore_safe.
Qed.

Lemma sanitizeFilename_cons (title : option jstr) :
  exists c t, sanitizeFilename title = c :: t.
Proof.
  rewrite sanitizeFilename_unfold.
  destruct (orDefaultName_cons title) as (c & t & ->). by eexists _, _.
Qed.

End FilenameFacts.

(** Sanitizing is idempotent: a sanitized name is a title that
    [sanitizeFilename] returns unchanged. *)
Theorem sanitizeFilename_idempotent (title : option jstr) :
  Filename.sanitizeFilename (Some (Filename.sanitizeFilename title))
  = Filename.sanitizeFilename title.
Proof.
  destruct (sanitizeFilename_cons title) as (c & t & Hct).
  rewrite (sanitizeFilename_unfold (Some _)), Hct. cbn [Filename.orDefaultName].
  rewrite <- Hct, safeOrUnderscore_fixed by apply sanitizeFilename_all_safe.
  apply take_ge. rewrite sanitizeFilename_unfold, length_take. lia.
Qed.

(** The file name of the writers under lib/ is never cut: it is as long as
    the title (or the fallback) plus the extension.  It starts with the name
    that [sanitizeFilename] gives, and for a title of at most 80 characters
    it is that name followed by the extension. *)
Theorem libFilename_uncut (t ext : jstr) :
  let name := Filename.orDefaultName (Some t) in
  length (Coordinator.libFilename t ext) = length name + length ext
  /\ Filename.sanitizeFilename (Some t) = take 80 (Coordinator.libFilename t [])
  /\ (exists rest, Coordinator.libFilename t ext
                   = Filename.sanitizeFilename (Some t) ++ rest ++ ext)
  /\ (length name <= 80 ->
      Coordinator.libFilename t ext = Filename.sanitizeFilename (Some t) ++ ext).
Proof.
  intros name. unfold Coordinator.libFilename. fold name.
  rewrite sanitizeFilename_unfold. fold name.
  change (map (fun c => if Filename.isSafeChar c then c else underscore) name)
    with (map Requests.safeOrUnderscore name).
  split_and!.
  - by rewrite length_app, length_map.
  - by rewrite app_nil_r.
  - exists (drop 80 (map Requests.safeOrUnderscore name)).
    by rewrite app_assoc, take_drop.
  - intros Hle. by rewrite take_ge by (rewrite length_map; lia).
Qed.

Lemma libFilename_uncut_witness :
  Coordinator.libFilename (js "a/b") (js ".md") = js "a_b.md".
Proof.
  destruct (libFilename_uncut (js "a/b") (js ".md")) as (_ & _ & _ & H).
  apply H. cbn. lia.
Defined.

(* ===================================================================== *)
(** ** The two escapers side by side *)
(* ===================================================================== *)

Section EscapersFacts.

Import Csv Requests.
Local Open Scope N_scope.

Lemma doubleQuotes_length (s : jstr) : (length s <= length (doubleQuotes s))%nat.
Proof.
  unfold doubleQuotes, replaceChar. induction s as [|c t IH]; [done|].
  cbn [flat_map]. rewrite length_app. destruct (c =? dquote); cbn; lia.
Qed.

Lemma quoted_longer (s : jstr) : quoted s <> s.
Proof.
  intros H. apply (f_equal length) in H. unfold quoted in H.
  rewrite !length_app in H. pose proof (doubleQuotes_length s). cbn in H. lia.
Qed.

Lemma escapeCSV_toStr (v : Value) : escapeCSV v = escapeCSV (VString (toStr v)).
Proof. reflexivity. Qed.

Lemma esc_toStr (v : Value) : esc v = esc (VString (toStr v)).
Proof. reflexivity. Qed.

Lemma digits_of_uint (d : Decimal.uint) :
  Forall (fun c => isDigit c = true) (js (NilEmpty.string_of_uint d)).
Proof. induction d; cbn; constructor; done. Qed.

Lemma decimal_digits (n : N) :
  decimal n <> [] /\ Forall (fun c => isDigit c = true) (decimal n).
Proof.
  unfold decimal. destruct (N.to_uint n) eqn:E; cbn;
    (split; [done | constructor; [done | apply digits_of_uint]]) || idtac.
  split; [done|]. by repeat constructor.
Qed.

Lemma js_inj (a b : string) : js a = js b -> a = b.
Proof.
  revert b. induction a as [|x a IH]; intros [|y b]; cbn; try done.
  intros [= Hxy Hab]. f_equal; [|by apply IH].
  by rewrite <- (ascii_N_embedding x), <- (ascii_N_embedding y), Hxy.
Qed.

Lemma to_uint_nonnil (n : N) : N.to_uint n <> Decimal.Nil.
Proof. destruct n; [done|]. apply DecimalPos.Unsigned.to_uint_nonnil. Qed.

Lemma decimal_inj (n m : N) : decimal n = decimal m -> n = m.
Proof.
  unfold decimal. intros H. apply js_inj in H.
  apply DecimalN.Unsigned.to_uint_inj.
  assert (Some (N.to_uint n) = Some (N.to_uint m)) as [= ->]; [|reflexivity].
  rewrite <- (NilZero.usu (N.to_uint n)), <- (NilZero.usu (N.to_uint m))
    by apply to_uint_nonnil.
  by rewrite H.
Qed.

Lemma digits_bare (s : jstr) :
  Forall (fun c => isDigit c = true) s -> ~ needsQuoting s.
Proof.
  intros H [Hq|[Hq|[Hq|Hq]]];
    (eapply Forall_forall in H; [|exact Hq]); done.
Qed.

End EscapersFacts.

(** The in-page [esc] and [escapeCSV] of lib/export-csv.js write the same
    field for every value, except a value with a carriage return and no
    double quote, comma or newline: that one [esc] leaves bare and
    [escapeCSV] quotes. *)
Theorem esc_agrees_with_escapeCSV (v : Csv.Value) :
  let s := Csv.toStr v in
  let onlyCR := (CR ∈ s) /\ ~ ((dquote ∈ s) \/ (comma ∈ s) \/ (LF ∈ s)) in
  (Csv.esc v = Csv.escapeCSV v <-> ~ onlyCR)
  /\ (onlyCR -> Csv.esc v = s /\ Csv.escapeCSV v = Csv.quoted s).
Proof.
  intros s onlyCR. subst onlyCR. rewrite esc_toStr, escapeCSV_toStr. fold s.
  destruct (decide ((dquote ∈ s) \/ (comma ∈ s) \/ (LF ∈ s))) as [Hs|Hs].
  - rewrite esc_quotes by exact Hs.
    rewrite escapeCSV_quotes by (unfold Csv.needsQuoting; tauto).
    split; [split; [tauto | done] | tauto].
  - rewrite esc_bare by exact Hs. destruct (decide (CR ∈ s)) as [Hc|Hc].
    + rewrite escapeCSV_quotes by (unfold Csv.needsQuoting; tauto). split.
      * split; [intros H; symmetry in H; by apply quoted_longer in H | tauto].
      * done.
    + rewrite escapeCSV_bare by (unfold Csv.needsQuoting; tauto).
      split; [split; [tauto | done] | tauto].
Qed.

Lemma esc_agrees_with_escapeCSV_witness :
  Csv.esc (Csv.VString Samples.crField) = Samples.crField
  /\ Csv.escapeCSV (Csv.VString Samples.crField) = Csv.quoted Samples.crField.
Proof.
  apply (esc_agrees_with_escapeCSV (Csv.VString Samples.crField)).
  split.
  - cbn. rewrite !elem_of_cons. tauto.
  - cbn. rewrite !elem_of_cons, !elem_of_nil. intros H. destruct_or!; discriminate.
Defined.

(** Turn numbers are written bare by both escapers: the field is the
    decimal numeral, a non-empty string of digits, and different numbers
    give different fields. *)
Theorem turn_numbers_bare (n m : N) :
  Csv.escapeCSV (Csv.VNumber n) = decimal n
  /\ Csv.esc (Csv.VNumber n) = decimal n
  /\ decimal n <> []
  /\ Forall (fun c => (48 <= c <= 57)%N) (decimal n)
  /\ (decimal n = decimal m -> n = m).
Proof.
  destruct (decimal_digits n) as [Hne Hd].
  pose proof (digits_bare _ Hd) as Hb.
  split_and!.
  - rewrite escapeCSV_toStr. by apply escapeCSV_bare.
  - rewrite esc_toStr. apply esc_bare. unfold Csv.needsQuoting in Hb. tauto.
  - exact Hne.
  - eapply Forall_impl; [exact Hd|]. intros c Hc. unfold Requests.isDigit in Hc.
    apply andb_true_iff in Hc as [H1 H2]. apply N.leb_le in H1, H2. done.
  - apply decimal_inj.
Qed.


(* ===================================================================== *)
(** ** The two markdown writers side by side *)
(* ===================================================================== *)

Section MarkdownMore.

Import Markdown Requests.

Lemma join_app (sep : jstr) (a b : list jstr) :
  a <> [] -> b <> [] -> join sep (a ++ b) = join sep a ++ sep ++ join sep b.
Proof.
  intros Ha Hb. induction a as [|p a IH]; [done|].
  destruct a as [|q a].
  - destruct b as [|r b]; [done|]. reflexivity.
  - change (join sep ((p :: q :: a) ++ b)) with (p ++ sep ++ join sep ((q :: a) ++ b)).
    rewrite IH by done.
    change (join sep (p :: q :: a)) with (p ++ sep ++ join sep (q :: a)).
    by rewrite <- !app_assoc.
Qed.

Lemma libMessageLines_untimed (m : Message) :
  timestampSuffix m = [] -> libMessageLines m = messageLines m.
Proof.
  intros H. unfold libMessageLines, messageLines. by rewrite H, app_nil_r.
Qed.

Lemma exportToMarkdownLines_untimed (now : jstr) (d : ChatData) :
  title d <> [] -> untimed d ->
  exportMarkdownLines now d
  = exportToMarkdownLines now d
    ++ match report d with Some r => reportLines r | None => [] end.
Proof.
  intros Ht Hu. unfold exportMarkdownLines, exportToMarkdownLines, titleOrUntitled.
  destruct (title d) as [|c t] eqn:E; [done|].
  rewrite <- !app_assoc. cbn [app]. do 6 f_equal.
  f_equal. rewrite !flat_map_concat_map. f_equal. apply map_ext_in. intros m Hm.
  symmetry. apply libMessageLines_untimed, Hu. by apply list_elem_of_In.
Qed.

End MarkdownMore.

(** For chat data with a title and no truthy timestamp, which is what
    extraction produces, the in-page writer gives the text of the writer of
    lib/export-markdown.js, followed, when there is a report, by a newline
    and the report section. *)
Theorem exportMarkdown_extends_lib (now : jstr) (d : ChatData) :
  title d <> [] -> Requests.untimed d ->
  Markdown.exportMarkdown now d
  = Markdown.exportToMarkdown now d
    ++ match report d with
       | Some r =>
           [LF] ++ join [LF] [js "---"; []; js "# Deep Research Report: " ++ reportTitle r;
                              []; reportContent r; []]
       | None => []
       end.
Proof.
  intros Ht Hu. unfold Markdown.exportMarkdown, Markdown.exportToMarkdown.
  rewrite (exportToMarkdownLines_untimed now d Ht Hu).
  destruct (report d) as [r|]; [|by rewrite !app_nil_r].
  by rewrite join_app.
Qed.

Lemma exportMarkdown_extends_lib_witness :
  Markdown.exportMarkdown (js "now") Samples.demo
  = Markdown.exportToMarkdown (js "now") Samples.demo ++ [].
Proof.
  apply (exportMarkdown_extends_lib (js "now") Samples.demo); [discriminate|].
  intros m Hm. cbn in Hm. rewrite !elem_of_cons, elem_of_nil in Hm.
  destruct_or!; by subst m.
Defined.

(* ===================================================================== *)
(** ** How export requests settle *)
(* ===================================================================== *)

Section RequestFacts.

Import Coordinator Requests.

Lemma jstr_eqb_eq (a b : jstr) : jstr_eqb a b = true <-> a = b.
Proof. unfold jstr_eqb. apply bool_decide_eq_true. Qed.

Lemma jstr_eqb_refl (a : jstr) : jstr_eqb a a = true.
Proof. by apply jstr_eqb_eq. Qed.



(** The cases of [exportChat] once the chat data has passed its tests. *)
Lemma exportChat_cases (env : Env) (d : ChatData) (format : jstr) :
  messages d <> [] ->
  exportChat env (Some d) format
  = if jstr_eqb format (js "markdown") then
      if markdownLoaded env
      then (Resolved,
            [Downloaded (libFilename (title d) (js ".md"))
               (Markdown.exportToMarkdown (now env) d)])
      else (exportFailed format (js "Markdown export module is not loaded."), [])
    else if jstr_eqb format (js "csv") then
      if csvLoaded env
      then (Resolved, [Downloaded (libFilename (title d) (js ".csv")) (Csv.exportToCSV d)])
      else (exportFailed format (js "CSV export module is not loaded."), [])
    else if jstr_eqb format (js "pdf") then
      if pdfLoaded env then
        if jspdfLoaded env
        then (Resolved, [SavedPdf (libFilename (title d) (js ".pdf"))])
        else (exportFailed format (js "jsPDF library is not loaded. Cannot generate PDF."), [])
      else (exportFailed format (js "PDF export module is not loaded."), [])
    else (exportFailed format (unsupportedMessage format), []).
Proof. unfold exportChat. by destruct (messages d). Qed.

Lemma exportChat_resolved (env : Env) (chatData : option ChatData) (format : jstr)
    (written : list Effect) :
  exportChat env chatData format = (Resolved, written) ->
  writerReady env format = true
  /\ exists d, chatData = Some d /\ messages d <> []
     /\ ((format = js "markdown"
          /\ written = [Downloaded (libFilename (title d) (js ".md"))
                          (Markdown.exportToMarkdown (now env) d)])
         \/ (format = js "csv"
             /\ written = [Downloaded (libFilename (title d) (js ".csv"))
                             (Csv.exportToCSV d)])
         \/ (format = js "pdf"
             /\ written = [SavedPdf (libFilename (title d) (js ".pdf"))])).
Proof.
  destruct chatData as [d|]; [|discriminate].
  destruct (decide (messages d = [])) as [He|Hne].
  { unfold exportChat. rewrite He. discriminate. }
  rewrite (exportChat_cases env d format Hne). unfold writerReady.
  destruct (jstr_eqb format (js "markdown")) eqn:Hm.
  { apply jstr_eqb_eq in Hm as ->. destruct (markdownLoaded env); [|discriminate].
    intros [= <-]. split; [reflexivity|]. exists d. split_and!; [done | done |]. by left. }
  destruct (jstr_eqb format (js "csv")) eqn:Hc.
  { apply jstr_eqb_eq in Hc as ->. destruct (csvLoaded env); [|discriminate].
    intros [= <-]. split; [reflexivity|]. exists d. split_and!; [done | done |].
    right. by left. }
  destruct (jstr_eqb format (js "pdf")) eqn:Hp; [|discriminate].
  apply jstr_eqb_eq in Hp as ->.
  destruct (pdfLoaded env); [|discriminate]. destruct (jspdfLoaded env); [|discriminate].
  intros [= <-]. split; [reflexivity|]. exists d. split_and!; [done | done |].
  right. by right.
Qed.

Lemma exportChat_ready (env : Env) (d : ChatData) (format : jstr) :
  messages d <> [] -> writerReady env format = true ->
  fst (exportChat env (Some d) format) = Resolved.
Proof.
  intros Hne. rewrite (exportChat_cases env d format Hne). unfold writerReady.
  destruct (jstr_eqb format (js "markdown")) eqn:Hm.
  { apply jstr_eqb_eq in Hm as ->. cbn. by destruct (markdownLoaded env). }
  destruct (jstr_eqb format (js "csv")) eqn:Hc.
  { apply jstr_eqb_eq in Hc as ->. cbn. by destruct (csvLoaded env). }
  destruct (jstr_eqb format (js "pdf")) eqn:Hp; [|done].
  cbn. by destruct (pdfLoaded env), (jspdfLoaded env).
Qed.

Lemma exportChat_rejected (env : Env) (chatData : option ChatData) (format : jstr)
    (message : jstr) (written : list Effect) :
  exportChat env chatData format = (Rejected message, written) ->
  written = []
  /\ exists reason, message = js "Export failed (" ++ format ++ js "): " ++ reason.
Proof.
  destruct chatData as [d|]; [|intros [= <- <-]; split; [done | by eexists]].
  destruct (decide (messages d = [])) as [He|Hne].
  { unfold exportChat. rewrite He. intros [= <- <-]. split; [done | by eexists]. }
  rewrite (exportChat_cases env d format Hne).
  repeat match goal with
         | |- context [if ?b then _ else _] => destruct b
         end;
    intros [= <- <-] || discriminate; split; done || by eexists.
Qed.

End RequestFacts.

(** How [exportChat] settles.  The promise resolves exactly when the chat
    data has a message and the writer of the format is loaded and can run;
    then one file was written, by that writer, named after the title with
    the extension of the format.  Otherwise it is rejected with a message
    that starts with [Export failed (format): ], and nothing was written. *)
Theorem exportChat_settles (env : Coordinator.Env) (chatData : option ChatData)
    (format : jstr) :
  (fst (Coordinator.exportChat env chatData format) = Coordinator.Resolved
   <-> Requests.hasMessages chatData /\ Requests.writerReady env format = true)
  /\ (forall written,
        Coordinator.exportChat env chatData format = (Coordinator.Resolved, written) ->
        exists d, chatData = Some d
          /\ ((format = js "markdown"
               /\ written = [Coordinator.Downloaded (Coordinator.libFilename (title d) (js ".md"))
                               (Markdown.exportToMarkdown (Coordinator.now env) d)])
              \/ (format = js "csv"
                  /\ written = [Coordinator.Downloaded
                                  (Coordinator.libFilename (title d) (js ".csv"))
                                  (Csv.exportToCSV d)])
              \/ (format = js "pdf"
                  /\ written = [Coordinator.SavedPdf
                                  (Coordinator.libFilename (title d) (js ".pdf"))])))
  /\ (forall message written,
        Coordinator.exportChat env chatData format = (Coordinator.Rejected message, written) ->
        written = []
        /\ exists reason, message = js "Export failed (" ++ format ++ js "): " ++ reason).
Proof.
  split_and!.
  - split.
    + destruct (Coordinator.exportChat env chatData format) as [o w] eqn:E. cbn.
      intros ->. apply exportChat_resolved in E as (Hr & d & -> & Hne & _).
      split; [by exists d | exact Hr].
    + intros [(d & -> & Hne) Hr]. by apply exportChat_ready.
  - intros written E. apply exportChat_resolved in E as (_ & d & -> & _ & H).
    by exists d.
  - apply exportChat_rejected.
Qed.

Lemma exportChat_settles_witness :
  fst (Coordinator.exportChat Samples.allLoaded (Some Samples.demo) (js "csv"))
  = Coordinator.Resolved.
Proof.
  apply (exportChat_settles Samples.allLoaded (Some Samples.demo) (js "csv")).
  split; [|reflexivity]. exists Samples.demo. split; [reflexivity | discriminate].
Defined.



(** Whatever the popup is asked, it ends with exactly one toast, after
    everything done on the page and after any file written: a success toast
    follows exactly one file, an error toast follows none. *)
Theorem popup_reports_once (env : Coordinator.Env) (page : Coordinator.Page)
    (format : jstr) :
  exists files kind message,
    Coordinator.popupHandleExport env page format
    = map Coordinator.OnPage (snd (Coordinator.extractChatFull page))
      ++ files ++ [Coordinator.Toast kind message]
    /\ (kind = Coordinator.success ->
        exists file, files = [file] /\ Requests.isFile file = true)
    /\ (kind = Coordinator.error -> files = []).
Proof.
  unfold Coordinator.popupHandleExport.
  destruct (Coordinator.extractChatFull page) as [[message|data] events].
  - exists [], Coordinator.error, (Dom.orString (Some message) (js "Failed to extract chat data")).
    cbn [snd app]. split_and!; [reflexivity | discriminate | reflexivity].
  - destruct (messages data) as [|m l] eqn:Hd.
    + exists [], Coordinator.error, (js "No chat messages found on this page").
      cbn [snd app]. split_and!; [reflexivity | discriminate | reflexivity].
    + destruct (Coordinator.exportChat env (Some data) format) as [[|msg] w] eqn:E.
      * apply exportChat_resolved in E as (_ & d & _ & _ & Hw).
        eexists w, Coordinator.success, _. cbn [snd].
        split_and!; [reflexivity | | discriminate].
        intros _. destruct Hw as [[_ ->]|[[_ ->]|[_ ->]]]; by eexists.
      * apply exportChat_rejected in E as (-> & _).
        eexists [], Coordinator.error, _. cbn [snd app].
        split_and!; [reflexivity | discriminate | reflexivity].
Qed.

Lemma popup_reports_once_witness :
  exists files kind message,
    Coordinator.popupHandleExport Samples.allLoaded Samples.staticPage (js "csv")
    = map Coordinator.OnPage (snd (Coordinator.extractChatFull Samples.staticPage))
      ++ files ++ [Coordinator.Toast kind message]
    /\ kind = Coordinator.success /\ length files = 1.
Proof.
  destruct (popup_reports_once Samples.allLoaded Samples.staticPage (js "csv"))
    as (files & kind & message & Heq & Hs & _).
  exists files, kind, message. split; [exact Heq|].
  assert (kind = Coordinator.success) as Hk.
  { apply (f_equal (fun l => last l)) in Heq. rewrite app_assoc, last_snoc in Heq.
    vm_compute in Heq. by injection Heq as <- _. }
  split; [exact Hk|]. by destruct (Hs Hk) as (file & -> & _).
Defined.

(* ===================================================================== *)
(** ** The tree walk *)
(* ===================================================================== *)

Section WalkFacts.

Import Dom Render Walk.

(** Induction on a document tree with the hypothesis for every child. *)
Lemma Node_tree_ind (P : Node -> Prop) :
  (forall d, P (Text d)) -> P Other ->
  (forall tag attrs kids, Forall P kids -> P (Element tag attrs kids)) ->
  forall n, P n.
Proof.
  intros Ht Ho He. fix IH 1. intros [d| |tag attrs kids]; [apply Ht | apply Ho |].
  apply He. induction kids as [|k ks IHks]; constructor; [apply IH | exact IHks].
Qed.

(** One step of [processNode] on an element, with its loops by name. *)
Lemma processNode_element (inPre : bool) (tag : jstr) (attrs : list (jstr * jstr))
    (kids : list Node) (parts : list jstr) :
  let n := Element tag attrs kids in
  let here := mkHandle inPre n in
  let below := inPre || isPreTag tag in
  processNode inPre n parts =
  if tagIn [js "span"] tag && hasClass (js "screen-reader-only") n then parts
  else if jstr_eqb (idOf n) (js "gce-root") || jstr_eqb (idOf n) (js "gce-toast")
  then parts
  else if tagIn [js "pre"; js "code-block"] tag then
    parts ++ [fence (detectCodeLanguage here)
                (trim (textContent
                         (node (default here (querySelector (ByTag (js "code")) here)))))]
  else if tagIn [js "code"] tag && negb inPre then
    parts ++ [js "`" ++ textContent n ++ js "`"]
  else if tagIn [js "img"] tag then parts ++ [js "[Image attachment]"]
  else if tagIn [js "ul"; js "ol"] tag then
    listItems (processNode below) (tagIn [js "ol"] tag) kids 0 (parts ++ [[LF]])
  else if tagIn [js "li"] tag then eachChild (processNode below) kids parts
  else if tagIn [js "table"] tag then formatTable here (parts ++ [[LF]]) ++ [[LF]]
  else if tagIn [js "strong"; js "b"] tag
  then eachChild (processNode below) kids (parts ++ [js "**"]) ++ [js "**"]
  else if tagIn [js "em"; js "i"] tag
  then eachChild (processNode below) kids (parts ++ [js "*"]) ++ [js "*"]
  else if tagIn [js "br"] tag then parts ++ [[LF]]
  else if tagIn [js "hr"] tag then parts ++ [[LF] ++ js "---" ++ [LF]]
  else match headingLevel tag with
  | Some level =>
      eachChild (processNode below) kids (parts ++ [[LF] ++ repeat 35%N level ++ js " "])
      ++ [[LF]]
  | None =>
      if tagIn [js "blockquote"] tag
      then eachChild (processNode below) kids (parts ++ [[LF] ++ js "> "]) ++ [[LF]]
      else
        let isBlock := tagIn blockTags tag in
        let opened := if isBlock then parts ++ [[LF]] else parts in
        let walked := eachChild (processNode below) kids opened in
        if isBlock then walked ++ [[LF]] else walked
  end.
Proof. reflexivity. Qed.

Lemma eachChild_appends (visit : Node -> list jstr -> list jstr) (ks : list Node) :
  Forall (appends visit) ks ->
  forall parts, eachChild visit ks parts = parts ++ flat_map (fun k => visit k []) ks.
Proof.
  induction 1 as [|k ks Hk _ IH]; intros parts; cbn [eachChild flat_map].
  - by rewrite app_nil_r.
  - by rewrite IH, (Hk parts), <- app_assoc.
Qed.

Lemma listItems_appends (visit : Node -> list jstr -> list jstr) (ordered : bool)
    (ks : list Node) :
  Forall (appends visit) ks ->
  forall i parts,
    listItems visit ordered ks i parts
    = parts ++ concat (imap (fun j li => [itemPrefix ordered (i + j)] ++ visit li [] ++ [[LF]])
                         (liChildren ks)).
Proof.
  induction 1 as [|k ks Hk _ IH]; intros i parts; cbn [listItems liChildren List.filter].
  - by rewrite app_nil_r.
  - destruct (selects (ByTag (js "li")) k); [|apply IH].
    fold (liChildren ks). cbn [imap concat]. rewrite IH, (Hk (parts ++ _)).
    rewrite Nat.add_0_r. fold (itemPrefix ordered i).
    rewrite <- !app_assoc. do 4 f_equal. unfold compose.
    f_equal. apply imap_ext. intros j li _. cbn. by rewrite Nat.add_succ_r.
Qed.

Lemma processNode_appends_all (n : Node) :
  forall inPre, appends (processNode inPre) n.
Proof.
  induction n as [d| |tag attrs kids IH] using Node_tree_ind; intros inPre parts.
  - reflexivity.
  - by rewrite app_nil_r.
  - assert (Forall (appends (processNode (inPre || isPreTag tag))) kids) as Hkids
      by (eapply Forall_impl; [exact IH|]; intros k Hk; apply Hk).
    rewrite (processNode_element inPre tag attrs kids parts),
            (processNode_element inPre tag attrs kids []).
    cbv zeta.
    repeat match goal with
           | |- context [if ?b then _ else _] => destruct b
           | |- context [match headingLevel ?t with _ => _ end] =>
               destruct (headingLevel t)
           end;
      rewrite ?(eachChild_appends _ kids Hkids (_ ++ _)),
              ?(eachChild_appends _ kids Hkids parts),
              ?(eachChild_appends _ kids Hkids []),
              ?(eachChild_appends _ kids Hkids [_]),
              ?(listItems_appends _ _ kids Hkids 0 (_ ++ _)),
              ?(listItems_appends _ _ kids Hkids 0 [_]);
      unfold formatTable; cbn [app]; rewrite <- ?app_assoc, ?app_nil_r; reflexivity.
Qed.

End WalkFacts.

(** [processNode] only appends: what a node pushes does not depend on the
    parts pushed before it, and these stay as they were. *)
Theorem processNode_appends (inPre : bool) (n : Dom.Node) (parts : list jstr) :
  Render.processNode inPre n parts = parts ++ Render.processNode inPre n [].
Proof. apply processNode_appends_all. Qed.

(** A list is rendered from its [li] children alone, in order: a newline,
    then for each item its marker ([- ], or its 1-based number with a dot
    in an ordered list), what the item renders to, and a newline.  Other
    children of the list are left out. *)
Theorem list_items_numbered (inPre : bool) (tag : jstr) (attrs : list (jstr * jstr))
    (kids : list Dom.Node) :
  tag = js "ul" \/ tag = js "ol" ->
  Walk.skipped (Dom.Element tag attrs kids) = false ->
  Render.processNode inPre (Dom.Element tag attrs kids) []
  = [LF] :: concat (imap (fun j li =>
                            [if bool_decide (tag = js "ol")
                             then decimal (N.of_nat (j + 1)) ++ js ". "
                             else js "- "]
                            ++ Render.processNode inPre li [] ++ [[LF]])
                      (List.filter (Dom.selects (Dom.ByTag (js "li"))) kids)).
Proof.
  intros Htag Hskip. rewrite processNode_element. cbv zeta.
  unfold Walk.skipped in Hskip. cbn [Dom.tagOf] in Hskip.
  apply orb_false_iff in Hskip as [Hskip Hid2].
  apply orb_false_iff in Hskip as [Hsr Hid1].
  rewrite Hsr, Hid1, Hid2. cbn [orb].
  assert (Forall (Walk.appends (Render.processNode (inPre || Dom.isPreTag tag))) kids)
    as Hkids by (apply Forall_forall; intros k _ parts; apply processNode_appends_all).
  assert (inPre || Dom.isPreTag tag = inPre) as Hbelow
    by (destruct Htag as [-> | ->]; apply orb_false_r).
  rewrite Hbelow in *.
  destruct Htag as [-> | ->];
    repeat match goal with
           | |- context [Render.tagIn ?l (js ?t)] =>
               let b := eval vm_compute in (Render.tagIn l (js t)) in
               change (Render.tagIn l (js t)) with b
           | |- context [bool_decide (js ?a = js ?b)] =>
               let b' := eval vm_compute in (bool_decide (js a = js b)) in
               change (bool_decide (js a = js b)) with b'
           end;
    cbv beta iota; rewrite (listItems_appends _ _ kids Hkids); reflexivity.
Qed.

Lemma list_items_numbered_witness :
  Render.processNode false
    (Dom.Element (js "ol") []
       [Dom.Element (js "li") [] [Dom.Text (js "a")]; Dom.Text (js "x");
        Dom.Element (js "li") [] [Dom.Text (js "b")]]) []
  = [[LF]; js "1. "; js "a"; [LF]; js "2. "; js "b"; [LF]].
Proof.
  etrans; [apply (list_items_numbered false (js "ol") []); [by right | reflexivity]|].
  reflexivity.
Defined.

(* ===================================================================== *)
(** ** The language class token *)
(* ===================================================================== *)

Section LanguageClassFacts.

Import Dom Render.

Lemma stripPrefix_Some (p s rest : jstr) : stripPrefix p s = Some rest -> s = p ++ rest.
Proof.
  revert s. induction p as [|a p IH]; intros [|b s]; cbn; try done.
  - by intros [= ->].
  - by intros [= ->].
  - destruct (N.eqb_spec a b) as [->|_]; [|done]. intros H. by rewrite (IH s H).
Qed.

Lemma takeWhile_spec (p : N -> bool) (s : jstr) :
  Forall (fun c => p c = true) (takeWhile p s)
  /\ exists after, s = takeWhile p s ++ after
                   /\ forall c, head after = Some c -> p c = false.
Proof.
  induction s as [|c t (Hall & after & Ht & Hnext)]; cbn.
  - split; [constructor|]. by exists [].
  - destruct (p c) eqn:Hc.
    + split; [by constructor|]. exists after. split; [|exact Hnext].
      cbn [app]. by f_equal.
    + split; [constructor|]. exists (c :: t). split; [done|]. by intros c' [= <-].
Qed.

Lemma langAfter_Some (keyword s w : jstr) :
  langAfter keyword s = Some w ->
  w <> [] /\ Forall (fun c => isWordChar c = true) w
  /\ exists after, s = keyword ++ [hyphen] ++ w ++ after
                   /\ forall c, head after = Some c -> isWordChar c = false.
Proof.
  unfold langAfter. destruct (stripPrefix _ s) as [rest|] eqn:Hp; [|done].
  apply stripPrefix_Some in Hp.
  destruct (takeWhile_spec isWordChar rest) as (Hall & after & Hrest & Hnext).
  destruct (takeWhile isWordChar rest) as [|c t] eqn:Hw; [done|].
  intros [= <-]. split; [done|]. split; [exact Hall|].
  exists after. split; [|exact Hnext]. by rewrite Hp, Hrest, <- !app_assoc.
Qed.

Lemma matchLanguageClass_Some (s w : jstr) :
  matchLanguageClass s = Some w ->
  w <> [] /\ Forall (fun c => isWordChar c = true) w
  /\ exists before keyword after,
       (keyword = js "language" \/ keyword = js "lang")
       /\ s = before ++ keyword ++ [hyphen] ++ w ++ after
       /\ forall c, head after = Some c -> isWordChar c = false.
Proof.
  induction s as [|c t IH]; [done|]. cbn [matchLanguageClass].
  destruct (langAt (c :: t)) as [w'|] eqn:Hat.
  - intros [= ->]. unfold langAt, orElse in Hat.
    destruct (langAfter (js "language") (c :: t)) as [w1|] eqn:H1.
    + injection Hat as ->. apply langAfter_Some in H1 as (Hne & Hall & after & Hs & Hn).
      split; [exact Hne|]. split; [exact Hall|].
      exists [], (js "language"), after. split_and!; [by left | exact Hs | exact Hn].
    + apply langAfter_Some in Hat as (Hne & Hall & after & Hs & Hn).
      split; [exact Hne|]. split; [exact Hall|].
      exists [], (js "lang"), after. split_and!; [by right | exact Hs | exact Hn].
  - intros H. apply IH in H as (Hne & Hall & before & keyword & after & Hk & Hs & Hn).
    split; [exact Hne|]. split; [exact Hall|].
    exists (c :: before), keyword, after. split_and!; [exact Hk | by rewrite Hs | exact Hn].
Qed.

End LanguageClassFacts.

(** A language found in the class names is a whole word: it is not empty,
    holds letters, digits and underscores only, stands in the class names
    right after [language-] or [lang-], and is not followed by another such
    character.  The tag that [detectCodeLanguage] then returns is that
    word. *)
Theorem class_language_is_word (block : Dom.Handle) (w : jstr) :
  Render.matchLanguageClass (Render.classesOf block) = Some w ->
  Render.detectCodeLanguage block = w
  /\ w <> []
  /\ Forall (fun c => (97 <= c <= 122)%N \/ (65 <= c <= 90)%N \/ (48 <= c <= 57)%N
                      \/ c = underscore) w
  /\ exists before keyword after,
       (keyword = js "language" \/ keyword = js "lang")
       /\ Render.classesOf block = before ++ keyword ++ js "-" ++ w ++ after
       /\ forall c, head after = Some c -> Render.isWordChar c = false.
Proof.
  intros H. split; [unfold Render.detectCodeLanguage; by rewrite H|].
  apply matchLanguageClass_Some in H as (Hne & Hall & Hocc).
  split; [exact Hne|]. split; [|exact Hocc].
  eapply Forall_impl; [exact Hall|]. intros c Hc. unfold Render.isWordChar in Hc.
  rewrite !orb_true_iff, !andb_true_iff, !N.leb_le, N.eqb_eq in Hc. tauto.
Qed.

Lemma class_language_is_word_witness :
  Render.detectCodeLanguage
    (Dom.mkHandle false
       (Dom.Element (js "pre") [(js "class", js "hljs language-c++")] []))
  = js "c".
Proof.
  apply (class_language_is_word
           (Dom.mkHandle false
              (Dom.Element (js "pre") [(js "class", js "hljs language-c++")] []))).
  reflexivity.
Defined.

(* ===================================================================== *)
(** ** The chat title *)
(* ===================================================================== *)

Section TitleFacts.

Import Title Measures.
Local Open Scope N_scope.

Lemma dropWhile_app_all (p : N -> bool) (a b : jstr) :
  Forall (fun c => p c = true) a -> dropWhile p (a ++ b) = dropWhile p b.
Proof. induction 1 as [|c a Hc _ IH]; cbn [app dropWhile]; [done | by rewrite Hc]. Qed.

Lemma afterWord_folded (word w rest : jstr) :
  map foldCase w = map foldCase word -> afterWord word (w ++ rest) = Some rest.
Proof.
  revert w. induction word as [|a word IH]; intros [|b w]; cbn; try done.
  intros [= Hb Hw]. rewrite Hb, N.eqb_refl. by apply IH.
Qed.

Lemma foldCase_letter (letter c : N) :
  65 <= letter <= 90 -> foldCase c = letter -> isWhiteSpace c = false.
Proof.
  unfold foldCase, isWhiteSpace. intros Hl.
  destruct (N.leb_spec 97 c); destruct (N.leb_spec c 122); cbn [andb]; intros Hc;
    repeat (apply orb_false_iff; split); rewrite ?andb_false_iff, ?N.eqb_neq, ?N.leb_gt;
    lia.
Qed.

Lemma afterSpaces_word (gap w rest : jstr) (letter : N) (word : jstr) :
  Forall (fun c => isWhiteSpace c = true) gap ->
  65 <= letter <= 90 ->
  map foldCase w = letter :: word ->
  afterSpaces (gap ++ w ++ rest) = w ++ rest.
Proof.
  intros Hgap Hl Hw. unfold afterSpaces. rewrite dropWhile_app_all by exact Hgap.
  destruct w as [|c w]; [done|]. injection Hw as Hc _.
  cbn [app dropWhile]. by rewrite (foldCase_letter letter c Hl Hc).
Qed.

Lemma removeBrand_skip (words : list jstr) (a b : jstr) :
  Forall (fun c => isSeparator c = false) a ->
  removeBrand words (a ++ b) = a ++ removeBrand words b.
Proof.
  induction 1 as [|c a Hc _ IH]; [done|]. cbn [app removeBrand brandAt].
  by rewrite Hc, IH.
Qed.

Lemma removeBrand_none (words : list jstr) (s : jstr) :
  Forall (fun c => isSeparator c = false) s -> removeBrand words s = s.
Proof.
  intros H. rewrite <- (app_nil_r s) at 1. rewrite removeBrand_skip by exact H.
  by rewrite app_nil_r.
Qed.

Lemma afterLine_all (s : jstr) :
  Forall (fun c => isLineTerminator c = false) s -> afterLine s = [].
Proof.
  intros H. unfold afterLine. apply dropWhile_all.
  eapply Forall_impl; [exact H|]. intros c Hc. cbn. by rewrite Hc.
Qed.

Lemma removeBrand_branded (b : Branded) :
  wellBranded b ->
  removeBrand [js "Google"; js "Gemini"] (brandedTitle b) = name b.
Proof.
  intros (Hname & Hsep & Hg1 & Hgoogle & Hg2 & Hgemini & Htail).
  unfold brandedTitle. rewrite removeBrand_skip by exact Hname.
  cbn [app removeBrand brandAt]. rewrite Hsep. cbn [afterWords].
  rewrite (afterSpaces_word (gap1 b) (google b) _ 71 (map foldCase (js "oogle")));
    [|exact Hg1 | lia | exact Hgoogle].
  rewrite afterWord_folded by exact Hgoogle.
  rewrite (afterSpaces_word (gap2 b) (gemini b) _ 71 (map foldCase (js "emini")));
    [|exact Hg2 | lia | exact Hgemini].
  rewrite afterWord_folded by exact Hgemini.
  by rewrite afterLine_all, app_nil_r.
Qed.

Lemma untitled_Trimmed : Trimmed untitled.
Proof. intros c [[= <-]|[= <-]]; reflexivity. Qed.

Variable toLowerCase : jstr -> jstr.

Lemma getChatTitle_of_name (documentTitle cleaned : jstr) :
  removeBrand [js "Gemini"] (removeBrand [js "Google"; js "Gemini"] documentTitle)
  = cleaned ->
  getChatTitle toLowerCase documentTitle
  = if bool_decide (trim cleaned = [] \/ toLowerCase (trim cleaned) = js "gemini")
    then untitled else trim cleaned.
Proof.
  intros H. unfold getChatTitle. rewrite H.
  destruct (trim cleaned) as [|c t] eqn:E.
  - rewrite bool_decide_eq_true_2; [done | by left].
  - unfold jstr_eqb. case_bool_decide as Hg.
    + rewrite bool_decide_eq_true_2; [done | by right].
    + rewrite bool_decide_eq_false_2; [done|]. by intros [?|?].
Qed.

End TitleFacts.

(** The chat title is never empty and neither starts nor ends with white
    space, whatever the document title.  A document title that is a name
    without [-], [–] or [|] followed by a separator, [Google] and [Gemini]
    in any case and the rest of the line gives the trimmed name, and
    [Untitled Chat] when that is empty or reads [gemini]; so does a document
    title without separator, as it stands. *)
Theorem getChatTitle_result (toLowerCase : jstr -> jstr) (documentTitle : jstr)
    (b : Title.Branded) :
  let titleFor (name : jstr) :=
    if bool_decide (trim name = [] \/ toLowerCase (trim name) = js "gemini")
    then js "Untitled Chat" else trim name in
  Title.getChatTitle toLowerCase documentTitle <> []
  /\ Measures.Trimmed (Title.getChatTitle toLowerCase documentTitle)
  /\ (Title.wellBranded b ->
      Title.getChatTitle toLowerCase (Title.brandedTitle b) = titleFor (Title.name b))
  /\ (Forall (fun c => Title.isSeparator c = false) documentTitle ->
      Title.getChatTitle toLowerCase documentTitle = titleFor documentTitle).
Proof.
  intros titleFor. split_and!.
  - rewrite (getChatTitle_of_name toLowerCase documentTitle _ eq_refl).
    case_bool_decide as H; [done|]. intros E. apply H. by left.
  - rewrite (getChatTitle_of_name toLowerCase documentTitle _ eq_refl).
    case_bool_decide; [apply untitled_Trimmed | apply trim_Trimmed].
  - intros Hb. apply getChatTitle_of_name.
    rewrite (removeBrand_branded b Hb). apply removeBrand_none, Hb.
  - intros Hs. apply getChatTitle_of_name.
    by rewrite (removeBrand_none _ documentTitle Hs), (removeBrand_none _ documentTitle Hs).
Qed.

Lemma getChatTitle_result_witness :
  Title.getChatTitle PopupContent.asciiToLowerCase (js "Trip plan - Google Gemini")
  = js "Trip plan".
Proof.
  destruct (getChatTitle_result PopupContent.asciiToLowerCase [] TitleSamples.tripTitle)
    as (_ & _ & H & _).
  apply H. unfold Title.wellBranded. cbn.
  split_and!; repeat constructor.
Defined.

(* ===================================================================== *)
(** ** The Deep Research report *)
(* ===================================================================== *)

Section ReportFacts.

Import Dom Render ReportPanel.

Lemma titleIn_Some (found : option Located) (t : jstr) :
  titleIn found = Some t -> 3 < length t < 200.
Proof.
  destruct found as [titleEl|]; [|done]. cbn [titleIn].
  destruct (isTitle _) eqn:H; [|done]. intros [= <-].
  unfold isTitle in H. rewrite !andb_true_iff, !Nat.ltb_lt in H. lia.
Qed.

Lemma getReportTitle_length (drPanel : Located) :
  0 < length (getReportTitle drPanel) < 200.
Proof.
  unfold getReportTitle.
  destruct (match query isToolbar drPanel with
            | Some toolbar => titleIn (query isTitleLike toolbar)
            | None => None
            end) as [t|] eqn:Htool.
  { destruct (query isToolbar drPanel); [|done]. apply titleIn_Some in Htool. lia. }
  destruct (titleIn (query isHeading drPanel)) as [t|] eqn:Hhead.
  { apply titleIn_Some in Hhead. lia. }
  destruct (trim (textContent (element drPanel))) as [|c text]; [cbn; lia|].
  set (firstLine := trim (hd [] (splitOn LF (c :: text)))).
  unfold orString, substring0.
  assert (length (take 80 firstLine) <= 80) as Hlen by (rewrite length_take; lia).
  destruct (take 80 firstLine) as [|c' t']; cbn in *; lia.
Qed.

(** The second selector of the chain for the report's content never
    decides: what it could find the first one has found. *)
Lemma query_in_response (container : Located) :
  query (hasTag "message-content") container = None ->
  query isMessageContentInResponse container = None.
Proof.
  unfold query. intros H.
  destruct (List.filter isMessageContentInResponse (below container)) as [|x l] eqn:E;
    [done|].
  assert (In x (List.filter (hasTag "message-content") (below container))) as Hin.
  { assert (In x (List.filter isMessageContentInResponse (below container))) as Hx
      by (rewrite E; by left).
    apply filter_In in Hx as [Hb Hx]. apply filter_In. split; [exact Hb|].
    unfold isMessageContentInResponse in Hx. by apply andb_true_iff in Hx as [? _]. }
  by destruct (List.filter (hasTag "message-content") (below container)).
Qed.

End ReportFacts.

(** A report that [extractDeepResearchReport] returns has trimmed content of
    at least 50 characters and a title of 1 to 199 characters; there is no
    report without a panel or without a container in it.  The selector
    [response-container message-content] never decides which element the
    content is read from. *)
Theorem report_thresholds (doc : Dom.Node) :
  (forall r, ReportPanel.extractDeepResearchReport doc = Some r ->
     50 <= length (reportContent r)
     /\ Measures.Trimmed (reportContent r)
     /\ 0 < length (reportTitle r) < 200
     /\ exists drPanel container,
          ReportPanel.documentQuery (ReportPanel.hasTag "deep-research-immersive-panel") doc
          = Some drPanel
          /\ ReportPanel.query (ReportPanel.hasClassName "container") drPanel = Some container
          /\ reportTitle r = ReportPanel.getReportTitle drPanel)
  /\ (forall container,
        Dom.orElse (ReportPanel.query (ReportPanel.hasTag "message-content") container)
          (Dom.orElse (ReportPanel.query ReportPanel.isMessageContentInResponse container)
             (ReportPanel.query (ReportPanel.hasTag "response-container") container))
        = Dom.orElse (ReportPanel.query (ReportPanel.hasTag "message-content") container)
            (ReportPanel.query (ReportPanel.hasTag "response-container") container)).
Proof.
  split.
  - intros r. unfold ReportPanel.extractDeepResearchReport.
    destruct (ReportPanel.documentQuery _ doc) as [drPanel|] eqn:Hpanel; [|done].
    destruct (ReportPanel.query (ReportPanel.hasClassName "container") drPanel)
      as [container|] eqn:Hcontainer; [|done].
    destruct (Dom.orElse _ _) as [found|].
    + destruct (Nat.eqb _ 0 || Nat.ltb _ 50) eqn:H; [done|]. intros [= <-].
      apply orb_false_iff in H as [_ H]. apply Nat.ltb_ge in H. cbn [reportContent reportTitle].
      split_and!; [exact H | apply trim_Trimmed | apply getReportTitle_length
                  | apply getReportTitle_length | by exists drPanel, container].
    + destruct (negb (Nat.eqb _ 0) && Nat.ltb 100 _) eqn:H; [|done]. intros [= <-].
      apply andb_true_iff in H as [_ H]. apply Nat.ltb_lt in H. cbn [reportContent reportTitle].
      split_and!; [apply Nat.lt_le_incl, Nat.lt_trans with 100; [lia | exact H]
                  | apply trim_Trimmed | apply getReportTitle_length
                  | apply getReportTitle_length | by exists drPanel, container].
  - intros container.
    destruct (ReportPanel.query (ReportPanel.hasTag "message-content") container) eqn:E;
      [reflexivity|]. cbn [Dom.orElse]. by rewrite query_in_response.
Qed.

Lemma report_thresholds_witness :
  ReportPanel.extractDeepResearchReport ReportSamples.reportPage
  = Some ReportSamples.surveyReport
  /\ 50 <= length (reportContent ReportSamples.surveyReport).
Proof.
  destruct (report_thresholds ReportSamples.reportPage) as [H _].
  assert (ReportPanel.extractDeepResearchReport ReportSamples.reportPage
          = Some ReportSamples.surveyReport) as E by (vm_compute; reflexivity).
  split; [exact E|]. by destruct (H _ E) as [H50 _].
Defined.

(* ===================================================================== *)
(** ** The checksum of the icon files *)
(* ===================================================================== *)

Section ChecksumFacts.

Import Png.
Local Open Scope Z_scope.

Lemma toUint32_range (z : Z) : 0 <= toUint32 z < 2 ^ 32.
Proof. unfold toUint32. apply Z.mod_pos_bound. lia. Qed.

Lemma toUint32_idem (z : Z) : toUint32 (toUint32 z) = toUint32 z.
Proof. unfold toUint32. apply Z.mod_mod. lia. Qed.

Lemma toUint32_small (z : Z) : 0 <= z < 2 ^ 32 -> toUint32 z = z.
Proof. apply Z.mod_small. Qed.

Lemma toUint32_toInt32 (z : Z) : toUint32 (toInt32 z) = toUint32 z.
Proof.
  unfold toInt32, toUint32. destruct (_ <? _).
  - apply Z.mod_mod. lia.
  - rewrite <- (Z.mod_add _ 1 (2 ^ 32)) by lia.
    replace (z mod 2 ^ 32 - 2 ^ 32 + 1 * 2 ^ 32) with (z mod 2 ^ 32) by lia.
    apply Z.mod_mod. lia.
Qed.

Lemma toUint32_lxor (a b : Z) :
  toUint32 (Z.lxor a b) = Z.lxor (toUint32 a) (toUint32 b).
Proof.
  unfold toUint32. apply Z.bits_inj'. intros i Hi.
  rewrite Z.lxor_spec, !Z.testbit_mod_pow2, Z.lxor_spec by lia.
  by destruct (i <? 32), (Z.testbit a i), (Z.testbit b i).
Qed.

Lemma toUint32_land (a b : Z) :
  toUint32 (Z.land a b) = Z.land (toUint32 a) (toUint32 b).
Proof.
  unfold toUint32. apply Z.bits_inj'. intros i Hi.
  rewrite Z.land_spec, !Z.testbit_mod_pow2, Z.land_spec by lia.
  by destruct (i <? 32), (Z.testbit a i), (Z.testbit b i).
Qed.

Lemma toUint32_jsXor (a b : Z) :
  toUint32 (jsXor a b) = Z.lxor (toUint32 a) (toUint32 b).
Proof. unfold jsXor. by rewrite toUint32_lxor, !toUint32_toInt32. Qed.

Lemma toUint32_jsAnd (a b : Z) :
  toUint32 (jsAnd a b) = Z.land (toUint32 a) (toUint32 b).
Proof. unfold jsAnd. by rewrite toUint32_land, !toUint32_toInt32. Qed.

Lemma jsShru_range (a n : Z) : 0 <= n -> 0 <= jsShru a n < 2 ^ 32.
Proof.
  intros Hn. unfold jsShru. pose proof (toUint32_range a) as H.
  rewrite Z.shiftr_div_pow2 by lia. split.
  - apply Z.div_pos; lia.
  - apply Z.div_lt_upper_bound; [lia|]. nia.
Qed.

Lemma toUint32_jsShru (a n : Z) : 0 <= n -> toUint32 (jsShru a n) = jsShru a n.
Proof. intros. by apply toUint32_small, jsShru_range. Qed.

Lemma testbit0_toInt32 (c : Z) : Z.testbit (toInt32 c) 0 = Z.testbit (toUint32 c) 0.
Proof.
  rewrite <- (toUint32_toInt32 c). unfold toUint32 at 1.
  by rewrite Z.testbit_mod_pow2 by lia.
Qed.

Lemma toUint32_tableStep (c : Z) : toUint32 (tableStep c) = shiftStep (toUint32 c).
Proof.
  unfold tableStep, shiftStep.
  assert (jsAnd c 1 = Z.b2z (Z.testbit (toUint32 c) 0)) as ->.
  { unfold jsAnd. change (toInt32 1) with (Z.ones 1).
    rewrite Z.land_ones by lia. change (2 ^ 1) with 2.
    by rewrite <- Z.bit0_mod, testbit0_toInt32. }
  destruct (Z.testbit (toUint32 c) 0); cbn [Z.b2z Z.eqb negb].
  - rewrite toUint32_jsXor, toUint32_jsShru by lia.
    unfold jsShru. rewrite Z.lxor_comm. reflexivity.
  - rewrite toUint32_jsShru by lia. unfold jsShru. by rewrite Z.lxor_0_r.
Qed.

Lemma toUint32_iter_tableStep (k : nat) (c : Z) :
  toUint32 (Nat.iter k tableStep c) = Nat.iter k shiftStep (toUint32 c).
Proof.
  induction k as [|k IH]; [done|].
  by rewrite !Nat.iter_succ, toUint32_tableStep, IH.
Qed.

(** The step is linear for xor. *)
Lemma shiftStep_lxor (u v : Z) :
  shiftStep (Z.lxor u v) = Z.lxor (shiftStep u) (shiftStep v).
Proof.
  unfold shiftStep. rewrite Z.shiftr_lxor, Z.lxor_spec.
  set (a := Z.shiftr u 1). set (b := Z.shiftr v 1).
  destruct (Z.testbit u 0), (Z.testbit v 0); cbn [xorb];
    rewrite ?Z.lxor_0_r.
  - apply Z.bits_inj'. intros i _. rewrite !Z.lxor_spec.
    by destruct (Z.testbit a i), (Z.testbit b i), (Z.testbit 0xedb88320 i).
  - apply Z.bits_inj'. intros i _. rewrite !Z.lxor_spec.
    by destruct (Z.testbit a i), (Z.testbit b i), (Z.testbit 0xedb88320 i).
  - apply Z.bits_inj'. intros i _. rewrite !Z.lxor_spec.
    by destruct (Z.testbit a i), (Z.testbit b i), (Z.testbit 0xedb88320 i).
  - reflexivity.
Qed.

Lemma iter_shiftStep_lxor (k : nat) (u v : Z) :
  Nat.iter k shiftStep (Z.lxor u v)
  = Z.lxor (Nat.iter k shiftStep u) (Nat.iter k shiftStep v).
Proof.
  induction k as [|k IH]; [done|].
  by rewrite !Nat.iter_succ, IH, shiftStep_lxor.
Qed.

(** A register whose low bits are clear only shifts. *)
Lemma shiftStep_shiftl (w j : Z) :
  0 < j -> shiftStep (Z.shiftl w j) = Z.shiftl w (j - 1).
Proof.
  intros Hj. unfold shiftStep.
  rewrite Z.shiftl_spec_low, Z.lxor_0_r by lia.
  apply Z.shiftr_shiftl_l. lia.
Qed.

Lemma iter_shiftStep_high (w : Z) : Nat.iter 8 shiftStep (Z.shiftl w 8) = w.
Proof.
  cbn [Nat.iter nat_rect].
  rewrite !shiftStep_shiftl by lia. apply Z.shiftl_0_r.
Qed.

Lemma split_low_byte (u : Z) :
  u = Z.lxor (Z.shiftl (Z.shiftr u 8) 8) (Z.land u 255).
Proof.
  apply Z.bits_inj'. intros i Hi.
  change 255 with (Z.ones 8).
  rewrite Z.lxor_spec, Z.land_ones, Z.testbit_mod_pow2 by lia.
  destruct (Z.ltb_spec i 8).
  - rewrite Z.shiftl_spec_low by lia. by destruct (Z.testbit u i).
  - rewrite Z.shiftl_spec, Z.shiftr_spec by lia.
    replace (i - 8 + 8) with i by lia. by destruct (Z.testbit u i).
Qed.

(** Eight steps shift the register by a byte and mix in what the low byte
    alone gives. *)
Lemma iter_shiftStep_byte (u : Z) :
  Nat.iter 8 shiftStep u
  = Z.lxor (Z.shiftr u 8) (Nat.iter 8 shiftStep (Z.land u 255)).
Proof.
  rewrite (split_low_byte u) at 1.
  by rewrite iter_shiftStep_lxor, iter_shiftStep_high.
Qed.

Lemma land_255_range (u : Z) : 0 <= Z.land u 255 < 256.
Proof.
  change 255 with (Z.ones 8). rewrite Z.land_ones by lia.
  apply Z.mod_pos_bound. lia.
Qed.

Lemma crcTable_nth (i : Z) :
  0 <= i < 256 -> nth (Z.to_nat i) crcTable 0 = Nat.iter 8 shiftStep i.
Proof.
  intros Hi. unfold crcTable.
  rewrite (nth_indep _ 0 (crcTableAt 0)) by (rewrite length_map, length_seq; lia).
  rewrite (map_nth crcTableAt), seq_nth by lia.
  unfold crcTableAt. rewrite toUint32_iter_tableStep, Nat.add_0_l, Z2Nat.id by lia.
  by rewrite toUint32_small by lia.
Qed.

Lemma byteZ_range (b : Byte.byte) : 0 <= byteZ b < 256.
Proof. unfold byteZ. pose proof (Byte.to_N_bounded b). lia. Qed.

Lemma jsAnd_255 (x : Z) : jsAnd x 255 = Z.land (toUint32 x) 255.
Proof.
  rewrite <- (toUint32_small (jsAnd x 255)).
  - rewrite toUint32_jsAnd. by rewrite (toUint32_small 255) by lia.
  - unfold jsAnd. change (toInt32 255) with 255.
    pose proof (land_255_range (toInt32 x)). lia.
Qed.

(** What a round of [crc32] leaves in the register, as an unsigned
    number. *)
Lemma toUint32_crcRound (crc : Z) (b : Byte.byte) :
  toUint32 (crcRound crc b)
  = Nat.iter 8 shiftStep (Z.lxor (toUint32 crc) (byteZ b)).
Proof.
  pose proof (byteZ_range b) as Hb.
  unfold crcRound.
  rewrite toUint32_jsXor, toUint32_jsShru by lia.
  rewrite jsAnd_255, toUint32_jsXor, (toUint32_small (byteZ b)) by lia.
  rewrite crcTable_nth by apply land_255_range.
  rewrite (toUint32_small (Nat.iter 8 shiftStep _)).
  - rewrite (iter_shiftStep_byte (Z.lxor _ _)). f_equal.
    unfold jsShru. rewrite Z.shiftr_lxor.
    rewrite (Z.shiftr_div_pow2 (byteZ b)), Z.div_small, Z.lxor_0_r by lia.
    reflexivity.
  - rewrite <- crcTable_nth by apply land_255_range.
    unfold crcTable.
    rewrite (nth_indep _ 0 (crcTableAt 0))
      by (rewrite length_map, length_seq; pose proof (land_255_range
            (Z.lxor (toUint32 crc) (byteZ b))); lia).
    rewrite (map_nth crcTableAt). apply toUint32_range.
Qed.

End ChecksumFacts.

Section ChecksumLoop.

Import Png.
Local Open Scope Z_scope.

Lemma crcRound_bit_by_bit (b : Byte.byte) (c c' : Z) :
  toUint32 c = toUint32 c' ->
  toUint32 (crcRound c b) = toUint32 (Nat.iter 8 tableStep (jsXor c' (byteZ b))).
Proof.
  intros Hc.
  rewrite toUint32_crcRound, toUint32_iter_tableStep, toUint32_jsXor, Hc.
  pose proof (byteZ_range b). by rewrite (toUint32_small (byteZ b)) by lia.
Qed.

Lemma fold_left_step {A B : Type} (f : A -> B -> A) (b : B) (l : list B) (a : A) :
  fold_left f (b :: l) a = fold_left f l (f a b).
Proof. reflexivity. Qed.

Lemma fold_crcRound (buf : list Byte.byte) (c c' : Z) :
  toUint32 c = toUint32 c' ->
  toUint32 (fold_left crcRound buf c)
  = toUint32 (fold_left (fun crc b => Nat.iter 8 tableStep (jsXor crc (byteZ b))) buf c').
Proof.
  revert c c'. induction buf as [|b buf IH]; intros c c' Hc; [exact Hc|].
  rewrite !fold_left_step. apply IH. by apply crcRound_bit_by_bit.
Qed.

Lemma crc32_range (buf : list Byte.byte) : 0 <= crc32 buf < 2 ^ 32.
Proof. apply jsShru_range. lia. Qed.

End ChecksumLoop.

(** [crc32] gives what the bit by bit checksum gives: each round of its
    loop, one table look-up, leaves in the register what xoring the byte in
    and running the eight steps of the table's own loop leaves.  The
    result is an unsigned number of 32 bits. *)
Theorem crc32_bit_by_bit (buf : list Byte.byte) :
  Png.crc32 buf
  = Png.toUint32
      (Png.jsXor
         (fold_left (fun crc b => Nat.iter 8 Png.tableStep (Png.jsXor crc (Png.byteZ b)))
            buf 0xffffffff%Z)
         0xffffffff%Z)
  /\ (0 <= Png.crc32 buf < 2 ^ 32)%Z.
Proof.
  split; [|apply crc32_range].
  unfold Png.crc32. unfold Png.jsShru at 1. rewrite Z.shiftr_0_r.
  rewrite !toUint32_jsXor. f_equal. by apply fold_crcRound.
Qed.

(* ===================================================================== *)
(** ** Chunks *)
(* ===================================================================== *)

Section ChunkFacts.

Import Png.
Local Open Scope Z_scope.

Lemma byteZ_ofZ (z : Z) : byteZ (ofZ z) = z mod 256.
Proof.
  unfold byteZ, ofZ. pose proof (Z.mod_pos_bound z 256 ltac:(lia)) as Hz.
  pose proof (Byte.to_of_N_option_map (Z.to_N (z mod 256))) as H.
  destruct (Byte.of_N _) as [b|] eqn:E.
  - apply Byte.to_of_N in E. rewrite E. lia.
  - exfalso. cbn in H. destruct (N.leb_spec (Z.to_N (z mod 256)) 255); [done|lia].
Qed.

Lemma writeUInt32BE_Some (v : Z) :
  0 <= v < 2 ^ 32 ->
  exists bs, writeUInt32BE v = Some bs /\ length bs = 4%nat
             /\ forall rest, readUInt32BE (bs ++ rest) = Some (v, rest).
Proof.
  intros Hv. unfold writeUInt32BE.
  destruct (Z.leb_spec 0 v); [|lia]. destruct (Z.leb_spec v 0xffffffff); [|lia].
  eexists. split; [reflexivity|]. split; [reflexivity|]. intros rest.
  cbn [app readUInt32BE]. rewrite !byteZ_ofZ. do 2 f_equal.
  change (2 ^ 24) with 16777216. change (2 ^ 16) with 65536. change (2 ^ 8) with 256.
  change (2 ^ 32) with 4294967296 in Hv.
  Z.div_mod_to_equations. lia.
Qed.

Lemma writeUInt32BE_None (v : Z) : 2 ^ 32 <= v -> writeUInt32BE v = None.
Proof.
  intros Hv. unfold writeUInt32BE.
  destruct (Z.leb_spec v 0xffffffff); [lia|]. by rewrite andb_false_r.
Qed.

Lemma length_bytesOf (type : string) : length (bytesOf type) = String.length type.
Proof.
  unfold bytesOf. rewrite length_map.
  induction type as [|a type IH]; [done|]. cbn. by rewrite IH.
Qed.

Lemma makeChunk_Some (type : string) (data : list Byte.byte) :
  Z.of_nat (length data) < 2 ^ 32 ->
  exists len crc,
    makeChunk type data = Some (len ++ bytesOf type ++ data ++ crc)
    /\ length len = 4%nat /\ length crc = 4%nat
    /\ (forall rest, readUInt32BE (len ++ rest) = Some (Z.of_nat (length data), rest))
    /\ (forall rest, readUInt32BE (crc ++ rest)
                     = Some (crc32 (bytesOf type ++ data), rest)).
Proof.
  intros Hlen. unfold makeChunk.
  destruct (writeUInt32BE_Some (Z.of_nat (length data))) as (len & -> & Hl & Hrl); [lia|].
  destruct (writeUInt32BE_Some (crc32 (bytesOf type ++ data)))
    as (crc & -> & Hc & Hrc); [apply crc32_range|].
  by exists len, crc.
Qed.

Lemma readChunk_makeChunk (type : string) (data chunk rest : list Byte.byte) :
  String.length type = 4%nat ->
  makeChunk type data = Some chunk ->
  readChunk (chunk ++ rest) = Some (mkChunk (bytesOf type) data, rest).
Proof.
  intros Htype Hmake.
  destruct (Z.lt_ge_cases (Z.of_nat (length data)) (2 ^ 32)) as [Hlen|Hlen].
  - destruct (makeChunk_Some type data Hlen) as (len & crc & E & Hl & Hc & Hrl & Hrc).
    rewrite E in Hmake. injection Hmake as <-.
    unfold readChunk. rewrite <- !app_assoc, Hrl, Nat2Z.id.
    pose proof (length_bytesOf type) as Hb. rewrite Htype in Hb.
    destruct (Nat.ltb_spec (length (bytesOf type ++ data ++ crc ++ rest))
                (4 + length data)) as [Hshort|_].
    { rewrite !length_app in Hshort. lia. }
    rewrite (take_app_length' (bytesOf type) _ 4) by (by rewrite Hb).
    rewrite (drop_app_length' (bytesOf type) _ 4) by (by rewrite Hb).
    rewrite take_app_length.
    replace (drop (4 + length data) (bytesOf type ++ data ++ crc ++ rest))
      with (crc ++ rest).
    + rewrite Hrc, Z.eqb_refl. reflexivity.
    + rewrite app_assoc. rewrite drop_app_length'; [done|]. rewrite length_app. lia.
  - unfold makeChunk in Hmake. by rewrite writeUInt32BE_None in Hmake.
Qed.

End ChunkFacts.

(** [makeChunk] gives a chunk exactly when the data is shorter than 2^32
    bytes: the checksum always fits its four bytes.  The chunk is twelve
    bytes longer than type and data, and a reader that checks the checksum
    gets type and data back from it, whatever follows. *)
Theorem makeChunk_round_trip (type : string) (data : list Byte.byte) :
  (is_Some (Png.makeChunk type data) <-> (Z.of_nat (length data) < 2 ^ 32)%Z)
  /\ forall chunk, Png.makeChunk type data = Some chunk ->
       length chunk = 8 + String.length type + length data
       /\ (String.length type = 4 ->
           forall rest, Png.readChunk (chunk ++ rest)
                        = Some (Png.mkChunk (Png.bytesOf type) data, rest)).
Proof.
  split.
  - split.
    + intros [chunk H]. destruct (Z.lt_ge_cases (Z.of_nat (length data)) (2 ^ 32)); [done|].
      unfold Png.makeChunk in H. by rewrite writeUInt32BE_None in H.
    + intros H. destruct (makeChunk_Some type data H) as (len & crc & -> & _). by eexists.
  - intros chunk Hmake. split.
    + destruct (Z.lt_ge_cases (Z.of_nat (length data)) (2 ^ 32)) as [Hlen|Hlen].
      * destruct (makeChunk_Some type data Hlen) as (len & crc & E & Hl & Hc & _).
        rewrite E in Hmake. injection Hmake as <-.
        rewrite !length_app, length_bytesOf. lia.
      * unfold Png.makeChunk in Hmake. by rewrite writeUInt32BE_None in Hmake.
    + intros Htype rest. by apply readChunk_makeChunk.
Qed.

(* ===================================================================== *)
(** ** The image data and the file *)
(* ===================================================================== *)

Section ImageFacts.

Import Png.

Variables (pixels : list Byte.byte) (width height : nat).
Hypothesis full : length pixels = height * width * 4.

(** A row as [encodePNG] fills it from a full pixel buffer. *)
Local Abbreviation filtered :=
  (fun y => Byte.x00 :: take (width * 4) (drop (y * width * 4) pixels)).

Lemma length_filtered (y : nat) : y < height -> length (filtered y) = 1 + width * 4.
Proof.
  intros Hy. cbn [length]. rewrite length_take, length_drop. nia.
Qed.

Lemma row_full (y : nat) : y < height -> row pixels width y = Some (filtered y).
Proof.
  intros Hy. unfold row.
  destruct (Nat.ltb_spec (length pixels) (y * width * 4)) as [Hlt|_]; [nia|].
  pose proof (length_filtered y Hy) as Hlen. cbn [length] in Hlen.
  replace (width * 4 - length (take (width * 4) (drop (y * width * 4) pixels)))
    with 0 by lia.
  cbn [repeat]. by rewrite app_nil_r.
Qed.

Lemma rows_full (ys : list nat) :
  Forall (fun y => y < height) ys ->
  rows pixels width ys = Some (flat_map filtered ys).
Proof.
  induction 1 as [|y ys Hy _ IH]; [reflexivity|].
  cbn [rows flat_map]. by rewrite row_full, IH.
Qed.

Lemma rawData_full :
  rawData pixels width height = Some (flat_map filtered (seq 0 height)).
Proof.
  apply rows_full, Forall_forall. intros y Hy. apply elem_of_seq in Hy. lia.
Qed.

Lemma length_blocks (h : nat) :
  h <= height -> length (flat_map filtered (seq 0 h)) = h * (1 + width * 4).
Proof.
  induction h as [|h IH]; intros Hh; [reflexivity|].
  rewrite seq_S, flat_map_app, length_app, IH by lia.
  cbn [flat_map]. rewrite app_nil_r, length_filtered by lia. lia.
Qed.

Lemma lookup_blocks (h y j : nat) :
  h <= height -> y < h -> j < 1 + width * 4 ->
  flat_map filtered (seq 0 h) !! (y * (1 + width * 4) + j) = filtered y !! j.
Proof.
  induction h as [|h IH]; intros Hh Hy Hj; [lia|].
  rewrite seq_S, flat_map_app. cbn [flat_map]. rewrite app_nil_r.
  destruct (decide (y = h)) as [->|Hne].
  - rewrite lookup_app_r by (rewrite length_blocks by lia; lia).
    rewrite length_blocks by lia. f_equal. lia.
  - rewrite lookup_app_l by (rewrite length_blocks by lia; nia).
    apply IH; lia.
Qed.

End ImageFacts.

(** From a pixel buffer of [height * width * 4] bytes the row loop of
    [encodePNG] builds [height] rows of [1 + width * 4] bytes: each starts
    with the filter byte 0 and goes on with the pixels of its line, so that
    taking the filter bytes away gives the pixel buffer back. *)
Theorem rawData_rows (pixels : list Byte.byte) (width height : nat) :
  length pixels = height * width * 4 ->
  exists raw,
    Png.rawData pixels width height = Some raw
    /\ length raw = height * (1 + width * 4)
    /\ forall y, y < height ->
         raw !! (y * (1 + width * 4)) = Some Byte.x00
         /\ forall x, x < width * 4 ->
              raw !! (y * (1 + width * 4) + 1 + x) = pixels !! (y * width * 4 + x).
Proof.
  intros Hfull. eexists. split; [by apply rawData_full|]. split.
  - by apply (length_blocks pixels width height Hfull).
  - intros y Hy. split.
    + rewrite <- (Nat.add_0_r (y * _)).
      rewrite (lookup_blocks pixels width height Hfull) by (done || lia).
      reflexivity.
    + intros x Hx. rewrite <- Nat.add_assoc.
      rewrite (lookup_blocks pixels width height Hfull) by (done || lia).
      change (1 + x) with (S x). rewrite lookup_cons_ne_0 by done. cbn [Nat.pred].
      rewrite lookup_take_lt by lia. rewrite lookup_drop. reflexivity.
Qed.

Lemma rawData_rows_witness :
  exists raw,
    Png.rawData (map Png.ofZ [1; 2; 3; 4; 5; 6; 7; 8]%Z) 1 2 = Some raw
    /\ length raw = 2 * (1 + 1 * 4).
Proof.
  destruct (rawData_rows (map Png.ofZ [1; 2; 3; 4; 5; 6; 7; 8]%Z) 1 2 eq_refl)
    as (raw & H1 & H2 & _).
  by exists raw.
Defined.

Section FileFacts.

Import Png.
Local Open Scope Z_scope.

Lemma readChunks_more (fuel : nat) (chunk rest : list Byte.byte)
    (type : string) (data : list Byte.byte) :
  String.length type = 4%nat ->
  bytesOf type <> bytesOf "IEND" ->
  makeChunk type data = Some chunk ->
  readChunks (S fuel) (chunk ++ rest)
  = match readChunks fuel rest with
    | Some cs => Some (mkChunk (bytesOf type) data :: cs)
    | None => None
    end.
Proof.
  intros Htype Hne Hmake. cbn [readChunks].
  rewrite (readChunk_makeChunk type data chunk rest Htype Hmake). cbn [chunkType].
  by rewrite bool_decide_eq_false_2.
Qed.

Lemma readChunks_end (fuel : nat) (chunk : list Byte.byte) :
  makeChunk "IEND" [] = Some chunk ->
  readChunks (S fuel) chunk = Some [mkChunk (bytesOf "IEND") []].
Proof.
  intros Hmake. cbn [readChunks]. rewrite <- (app_nil_r chunk).
  rewrite (readChunk_makeChunk "IEND" [] chunk [] eq_refl Hmake). cbn [chunkType].
  by rewrite !bool_decide_eq_true_2.
Qed.

End FileFacts.

(** When the row loop has given the image data and the two sizes and the
    compressed data fit 32 bits, [encodePNG] gives a file of 57 bytes and
    the compressed data.  A reader finds the signature and the three chunks
    IHDR, IDAT and IEND in it, each with a right checksum; the header reads
    back as the width, the height, depth 8 and colour type 6, and the data
    chunk holds what [deflateSync] made of the image data. *)
Theorem encodePNG_readable (deflateSync : list Byte.byte -> list Byte.byte)
    (pixels : list Byte.byte) (width height : nat) (raw : list Byte.byte) :
  Png.rawData pixels width height = Some raw ->
  (Z.of_nat width < 2 ^ 32)%Z -> (Z.of_nat height < 2 ^ 32)%Z ->
  (Z.of_nat (length (deflateSync raw)) < 2 ^ 32)%Z ->
  exists png ihdr afterWidth,
    Png.encodePNG deflateSync pixels width height = Some png
    /\ length png = 57 + length (deflateSync raw)
    /\ Png.readPNG png
       = Some [Png.mkChunk (Png.bytesOf "IHDR") ihdr;
               Png.mkChunk (Png.bytesOf "IDAT") (deflateSync raw);
               Png.mkChunk (Png.bytesOf "IEND") []]
    /\ Png.readUInt32BE ihdr = Some (Z.of_nat width, afterWidth)
    /\ Png.readUInt32BE afterWidth = Some (Z.of_nat height, map Png.ofZ [8; 6; 0; 0; 0]%Z).
Proof.
  intros Hraw Hw Hh Hz. unfold Png.encodePNG. rewrite Hraw.
  destruct (writeUInt32BE_Some (Z.of_nat width)) as (w & -> & Hlw & Hrw); [lia|].
  destruct (writeUInt32BE_Some (Z.of_nat height)) as (h & -> & Hlh & Hrh); [lia|].
  set (ihdr := w ++ h ++ map Png.ofZ [8; 6; 0; 0; 0]%Z).
  assert (length ihdr = 13) as Hli by (unfold ihdr; rewrite !length_app, Hlw, Hlh; reflexivity).
  destruct (makeChunk_Some "IHDR" ihdr) as (l1 & k1 & E1 & ? & ? & _); [rewrite Hli; lia|].
  destruct (makeChunk_Some "IDAT" (deflateSync raw)) as (l2 & k2 & E2 & ? & ? & _); [lia|].
  destruct (makeChunk_Some "IEND" []) as (l3 & k3 & E3 & ? & ? & _); [cbn; lia|].
  rewrite E1, E2, E3. eexists _, ihdr, _. split; [reflexivity|]. split_and!.
  - rewrite !length_app, Hli. cbn [length Png.signature map Png.bytesOf list_ascii_of_string].
    lia.
  - unfold Png.readPNG. rewrite take_app_length' by reflexivity.
    rewrite bool_decide_eq_true_2 by reflexivity.
    rewrite drop_app_length' by reflexivity.
    rewrite length_app. change (length Png.signature) with 8%nat. cbn [Nat.add].
    rewrite (readChunks_more _ _ _ "IHDR" ihdr eq_refl ltac:(done) E1).
    rewrite (readChunks_more _ _ _ "IDAT" (deflateSync raw) eq_refl ltac:(done) E2).
    by rewrite (readChunks_end _ _ E3).
  - unfold ihdr. apply Hrw.
  - apply Hrh.
Qed.

Lemma encodePNG_readable_witness :
  exists png ihdr afterWidth,
    Png.encodePNG (fun raw => raw) (map Png.ofZ [1; 2; 3; 4; 5; 6; 7; 8]%Z) 1 2 = Some png
    /\ length png = 57 + 10
    /\ Png.readPNG png
       = Some [Png.mkChunk (Png.bytesOf "IHDR") ihdr;
               Png.mkChunk (Png.bytesOf "IDAT")
                 (map Png.ofZ [0; 1; 2; 3; 4; 0; 5; 6; 7; 8]%Z);
               Png.mkChunk (Png.bytesOf "IEND") []]
    /\ Png.readUInt32BE ihdr = Some (1%Z, afterWidth)
    /\ Png.readUInt32BE afterWidth = Some (2%Z, map Png.ofZ [8; 6; 0; 0; 0]%Z).
Proof.
  apply (encodePNG_readable (fun raw => raw) (map Png.ofZ [1; 2; 3; 4; 5; 6; 7; 8]%Z) 1 2
           (map Png.ofZ [0; 1; 2; 3; 4; 0; 5; 6; 7; 8]%Z));
    [reflexivity | reflexivity | reflexivity | reflexivity].
Defined.
